(** * ttn-osem-integration: the decoding engine

    A shallow embedding of [lib/decoding/helpers.js] (bytesToInt,
    findSensorIds, applyValueFromMeasurement) and of [lib/decoding/index.js]
    (bufferToMeasurements, decodeBuffer), with the properties the
    specification states about them.

    Conventions of the embedding:
    - JavaScript numbers are integers ([Z]); the bitwise operators work on
      32-bit two's complement values as ECMAScript defines them.
    - a JavaScript object is the finite map of its own properties; a
      property that is absent reads as [undefined], and no property name
      is one that [Object.prototype] provides.
    - an array is a list; an array that is mutated in place is threaded
      through the functions that mutate it. The measurements of an array
      are distinct objects, as [bufferToMeasurements] creates them.
    - a [throw] is the [Throw] constructor of [Result]; a rejected promise
      likewise. *)

From Stdlib Require Import ZArith Lia Ascii String.
From stdpp Require Import base option list gmap strings pretty fin_maps.

Local Open Scope Z_scope.

(** ** ECMAScript 32-bit integer operations *)

Module Int32.

(** [ToInt32]: reduction modulo 2^32 into [-2^31, 2^31). *)
Definition toInt32 (z : Z) : Z := (z + 2 ^ 31) mod 2 ^ 32 - 2 ^ 31.

(** [a << n]: the left operand is converted with ToInt32, the shift count
    is masked to its five low bits, the result is an Int32. *)
Definition shl (a n : Z) : Z :=
  toInt32 (Z.shiftl (toInt32 a) (Z.land n 31)).

(** [a | b]: both operands converted with ToInt32. *)
Definition or (a b : Z) : Z := Z.lor (toInt32 a) (toInt32 b).

Definition inRange (z : Z) : Prop := - 2 ^ 31 <= z < 2 ^ 31.

End Int32.

(** ** ByteCodec: [bytesToInt] (helpers.js) *)

(** A byte as it is read from a Buffer. *)
Definition isByte (b : Z) : Prop := 0 <= b < 256.

(** The loop [for (i = 0; i < bytes.length; i++) v = v | Number(bytes[i] << (i * 8))]
    with [i] the index of the head of the remaining bytes. *)
Fixpoint bytesToInt_from (i : Z) (bytes : list Z) (v : Z) : Z :=
  match bytes with
  | [] => v
  | b :: rest => bytesToInt_from (i + 1) rest (Int32.or v (Int32.shl b (i * 8)))
  end.

Definition bytesToInt (bytes : list Z) : Z := bytesToInt_from 0 bytes 0.

(** The value the specification describes: [Σ byte[i] · 2^(8·i)], an
    unsigned little-endian number. *)
Fixpoint littleEndianSum_from (i : Z) (bytes : list Z) : Z :=
  match bytes with
  | [] => 0
  | b :: rest => b * 2 ^ (8 * i) + littleEndianSum_from (i + 1) rest
  end.

Definition littleEndianSum (bytes : list Z) : Z := littleEndianSum_from 0 bytes.

(** ** JavaScript values, objects, exceptions *)

Inductive Val : Type :=
| VUndefined
| VNull
| VBool (b : bool)
| VNum (n : Z)
| VStr (s : string).

#[global] Instance Val_eq_dec : EqDecision Val.
Proof. solve_decision. Defined.

#[global] Instance Val_inhabited : Inhabited Val := populate VUndefined.

(** [a === b] on primitive values. *)
Definition strictEq (a b : Val) : bool := bool_decide (a = b).

(** ToBoolean. *)
Definition truthy (v : Val) : bool :=
  match v with
  | VUndefined | VNull => false
  | VBool b => b
  | VNum n => negb (n =? 0)
  | VStr s => negb (bool_decide (s = ""%string))
  end.

(** An object: its own properties. *)
Abbreviation Obj := (gmap string Val).

(** [o[k]] and [o.k]: an absent property reads as [undefined]. *)
Definition get (o : Obj) (k : string) : Val := default VUndefined (o !! k).

(** [o[k] = v]. *)
Definition set (o : Obj) (k : string) (v : Val) : Obj := <[k := v]> o.

Inductive Exn : Type :=
| Error (message : string)
| TypeError (message : string).

Inductive Result (A : Type) : Type :=
| Ok (a : A)
| Throw (e : Exn).
Arguments Ok {A} a.
Arguments Throw {A} e.

#[global] Instance Result_ret : MRet Result := fun _ a => Ok a.
#[global] Instance Result_bind : MBind Result := fun _ _ k r =>
  match r with
  | Ok a => k a
  | Throw e => Throw e
  end.

(** [v.toString()]: a TypeError on [undefined] and [null]. *)
Definition toString (v : Val) : Result string :=
  match v with
  | VUndefined => Throw (TypeError "Cannot read property 'toString' of undefined")
  | VNull => Throw (TypeError "Cannot read property 'toString' of null")
  | VBool b => Ok (if b then "true" else "false")%string
  | VNum n => Ok (pretty n)
  | VStr s => Ok s
  end.

(** [String.prototype.toLowerCase] is taken as an interface; the instance
    below folds the ASCII letters and leaves every other byte as it is. *)
Class StringOps := { toLowerCase : string -> string }.

Definition asciiToLower (c : ascii) : ascii :=
  let n := nat_of_ascii c in
  if ((65 <=? n) && (n <=? 90))%nat then ascii_of_nat (n + 32) else c.

Fixpoint asciiLowerCase (s : string) : string :=
  match s with
  | EmptyString => EmptyString
  | String c rest => String (asciiToLower c) (asciiLowerCase rest)
  end.

#[global] Instance ascii_StringOps : StringOps := {| toLowerCase := asciiLowerCase |}.

(** ** SensorMatcher: [findSensorIds] (helpers.js) *)

(** A sensor of [Box.sensors] is an object; its database identifier is the
    property [_id].

    [sensorMatchings] is an object of objects of alias arrays. The
    [for ... in] loops enumerate its properties, so it is given as the
    list of its properties in enumeration order: the order they are
    written in, for names that are not array indices. The names of an
    object are distinct. *)
Abbreviation Matchings := (list (string * list (string * list string))).

Section SensorMatcher.
Context `{StringOps}.

(** [for (const sensor of sensors)]: the result is the value assigned to
    [sensorMap[phenomenon]] when the loop leaves through [break] with
    [foundIt = true], and [None] when the sensors are exhausted. *)
Fixpoint scanSensors (sensorProp : string) (aliases : list string)
    (sensors : list Obj) : Result (option string) :=
  match sensors with
  | [] => Ok None
  | sensor :: rest =>
      if negb (truthy (get sensor sensorProp)) then
        scanSensors sensorProp aliases rest
      else
        s ← toString (get sensor sensorProp);
        let prop := toLowerCase s in
        if bool_decide (prop ∈ aliases) then
          id ← toString (get sensor "_id");
          Ok (Some id)
        else scanSensors sensorProp aliases rest
  end.

(** [for (const sensorProp in sensorMatchings[phenomenon])]: the aliases
    are lower-cased, the sensors scanned, and the loop is left as soon as
    one property has matched. *)
Fixpoint scanProps (props : list (string * list string))
    (sensors : list Obj) : Result (option string) :=
  match props with
  | [] => Ok None
  | (sensorProp, aliases) :: rest =>
      let aliases := map toLowerCase aliases in
      found ← scanSensors sensorProp aliases sensors;
      match found with
      | Some id => Ok (Some id)
      | None => scanProps rest sensors
      end
  end.

(** [for (const phenomenon in sensorMatchings)], threading [sensorMap]. *)
Fixpoint findSensorIds_from (sensorMap : gmap string string)
    (sensors : list Obj) (sensorMatchings : Matchings)
    : Result (gmap string string) :=
  match sensorMatchings with
  | [] => Ok sensorMap
  | (phenomenon, props) :: rest =>
      found ← scanProps props sensors;
      match found with
      | Some id => findSensorIds_from (<[phenomenon := id]> sensorMap) sensors rest
      | None => findSensorIds_from sensorMap sensors rest
      end
  end.

Definition findSensorIds (sensors : list Obj) (sensorMatchings : Matchings)
    : Result (gmap string string) :=
  findSensorIds_from ∅ sensors sensorMatchings.

(** What the specification calls a match: the sensor has a value for the
    attribute (a value that is not falsy) which equals one of the aliases
    up to letter case. *)
Definition matchesAlias (sensorProp : string) (aliases : list string)
    (sensor : Obj) : Prop :=
  ∃ s a, truthy (get sensor sensorProp) = true
         ∧ toString (get sensor sensorProp) = Ok s
         ∧ a ∈ aliases
         ∧ toLowerCase s = toLowerCase a.

(** The sensor matches none of the attributes of a role. *)
Definition matchesNone (props : list (string * list string)) (sensor : Obj) : Prop :=
  ∀ sensorProp aliases, (sensorProp, aliases) ∈ props →
    ¬ matchesAlias sensorProp aliases sensor.

End SensorMatcher.

(** ** ValuePropagator: [applyValueFromMeasurement] (helpers.js) *)

Abbreviation Measurement := (gmap string Val).

Module Args.
Record t : Type := {
  sensorId : Val;
  property : string;
  transformer : option (Val → Val)
}.
End Args.

(** [measurements[k].sensor_id === sensorId]. *)
Definition isCarrier (sensorId : Val) (m : Measurement) : bool :=
  strictEq (get m "sensor_id") sensorId.

(** [transformer ? transformer(m.value) : m.value]. *)
Definition carrierValue (args : Args.t) (m : Measurement) : Val :=
  match Args.transformer args with
  | Some f => f (get m "value")
  | None => get m "value"
  end.

(** The hook, with the array indices and the two loops of the source.
    [fuel] bounds the iterations still allowed; a loop that exhausts it
    yields [None]. *)
Module Loops.

(** [while (measurements[k] && measurements[k].sensor_id !== sensorId)
      measurements[k++][property] = value;] *)
Fixpoint whileLoop (fuel : nat) (sensorId : Val) (property : string)
    (value : Val) (k : nat) (measurements : list Measurement)
    : option (list Measurement) :=
  match measurements !! k with
  | None => Some measurements
  | Some m =>
      if isCarrier sensorId m then Some measurements
      else
        match fuel with
        | O => None
        | S fuel' =>
            whileLoop fuel' sensorId property value (S k)
              (<[k := set m property value]> measurements)
        end
  end.

(** [for (let k = 0; k < measurements.length; k++)] with its body. *)
Fixpoint forLoop (fuel : nat) (args : Args.t) (k : nat)
    (measurements : list Measurement) : option (list Measurement) :=
  match measurements !! k with
  | None => Some measurements
  | Some m =>
      if isCarrier (Args.sensorId args) m then
        let value := carrierValue args m in
        let measurements := delete k measurements in
        whileLoop (length measurements) (Args.sensorId args)
          (Args.property args) value k measurements
      else
        match fuel with
        | O => None
        | S fuel' => forLoop fuel' args (S k) measurements
        end
  end.

Definition hook (args : Args.t) (measurements : list Measurement)
    : option (list Measurement) :=
  forLoop (length measurements) args 0%nat measurements.

End Loops.

(** The same hook by recursion on the part of the array from index [k] on:
    [stampFollowing] is the [while] loop, [applyValueFromMeasurement] the
    [for] loop. The array after the call is the result. *)
Fixpoint stampFollowing (sensorId : Val) (property : string) (value : Val)
    (measurements : list Measurement) : list Measurement :=
  match measurements with
  | [] => []
  | m :: rest =>
      if isCarrier sensorId m then m :: rest
      else set m property value :: stampFollowing sensorId property value rest
  end.

Fixpoint applyValueFromMeasurement (args : Args.t)
    (measurements : list Measurement) : list Measurement :=
  match measurements with
  | [] => []
  | m :: rest =>
      if isCarrier (Args.sensorId args) m then
        stampFollowing (Args.sensorId args) (Args.property args)
          (carrierValue args m) rest
      else m :: applyValueFromMeasurement args rest
  end.

(** ** DecodeEngine: [bufferToMeasurements], [decodeBuffer] (index.js) *)

(** [Buffer.prototype.slice(start, end)] of Node: a negative offset counts
    from the end of the buffer, offsets are clamped to the buffer, and an
    end before the start gives the empty buffer. *)
Definition adjustOffset (offset len : Z) : Z :=
  if offset <? 0 then Z.max 0 (offset + len) else Z.min offset len.

Definition slice (buffer : list Z) (start stop : Z) : list Z :=
  let len := Z.of_nat (length buffer) in
  let start := adjustOffset start len in
  let stop := adjustOffset stop len in
  take (Z.to_nat (stop - start)) (drop (Z.to_nat start) buffer).

(** An element of a bufferTransformer. [onResult] is [None] when
    [typeof mask.onResult !== 'function']; a hook is given by the array it
    leaves behind. *)
Module Mask.
Record t : Type := {
  bytes : Z;
  sensorId : Val;
  transformer : list Z → Val;
  onResult : option (list Measurement → list Measurement)
}.
End Mask.

(** The calls a run makes into the functions of the bufferTransformer, in
    the order they are made, and how the run completes. *)
Inductive Call : Type :=
| CallTransformer (maskedBytes : list Z)
| CallOnResult (result : list Measurement).

Record Run (A : Type) : Type := MkRun {
  calls : list Call;
  completion : Result A
}.
Arguments MkRun {A} calls completion.
Arguments calls {A} r.
Arguments completion {A} r.

#[global] Instance Run_ret : MRet Run := fun _ a => MkRun [] (Ok a).
#[global] Instance Run_bind : MBind Run := fun _ _ k r =>
  match completion r with
  | Ok a => MkRun (calls r ++ calls (k a)) (completion (k a))
  | Throw e => MkRun (calls r) (Throw e)
  end.

Definition throw {A : Type} (e : Exn) : Run A := MkRun [] (Throw e).

(** [mask.transformer(maskedBytes)] *)
Definition callTransformer (mask : Mask.t) (maskedBytes : list Z) : Run Val :=
  MkRun [CallTransformer maskedBytes] (Ok (Mask.transformer mask maskedBytes)).

(** [mask.onResult(result)] *)
Definition callOnResult (hook : list Measurement → list Measurement)
    (result : list Measurement) : Run (list Measurement) :=
  MkRun [CallOnResult result] (Ok (hook result)).

(** [for (const mask of bufferTransformer) maskLength = maskLength + mask.bytes] *)
Fixpoint sumBytes (maskLength : Z) (bufferTransformer : list Mask.t) : Z :=
  match bufferTransformer with
  | [] => maskLength
  | mask :: rest => sumBytes (maskLength + Mask.bytes mask) rest
  end.

(** The loop that feeds each bufferTransformer element. *)
Fixpoint decodeMasks (buffer : list Z) (currByte : Z)
    (result : list Measurement) (bufferTransformer : list Mask.t)
    : Run (list Measurement) :=
  match bufferTransformer with
  | [] => mret result
  | mask :: rest =>
      let maskedBytes := slice buffer currByte (currByte + Mask.bytes mask) in
      value ← callTransformer mask maskedBytes;
      decodeMasks buffer (currByte + Mask.bytes mask)
        (result ++ [ {[ "sensor_id" := Mask.sensorId mask; "value" := value ]} ])
        rest
  end.

(** The loop that applies the onResult hooks. *)
Fixpoint applyOnResult (result : list Measurement)
    (bufferTransformer : list Mask.t) : Run (list Measurement) :=
  match bufferTransformer with
  | [] => mret result
  | mask :: rest =>
      match Mask.onResult mask with
      | Some hook =>
          result ← callOnResult hook result;
          applyOnResult result rest
      | None => applyOnResult result rest
      end
  end.

Definition bufferToMeasurements (buffer : list Z)
    (bufferTransformer : list Mask.t) : Run (list Measurement) :=
  let maskLength := sumBytes 0 bufferTransformer in
  if bool_decide (maskLength ≠ Z.of_nat (length buffer)) then
    throw (Error ("incorrect amount of bytes, should be " +:+ pretty maskLength))
  else
    result ← decodeMasks buffer 0 [] bufferTransformer;
    applyOnResult result bufferTransformer.

(** The measurements as they stand when the decoding loop has finished,
    before any hook has run. *)
Definition decodedMeasurements (buffer : list Z)
    (bufferTransformer : list Mask.t) : Run (list Measurement) :=
  decodeMasks buffer 0 [] bufferTransformer.

(** A box of the database: its sensors and its TTN configuration. *)
Module Box.
Record ttn_t : Type := { profile : string }.
Record integrations_t : Type := { ttn : option ttn_t }.
Record t : Type := {
  sensors : list Obj;
  integrations : option integrations_t
}.
End Box.

(** A decoding profile ([./debug], [./lora-serialization],
    [./sensebox_home]): it builds the bufferTransformer of a box. *)
Record Profile : Type := {
  createBufferTransformer : Box.t → Result (list Mask.t)
}.

(** [if (timestamp && measurements.length && !measurements[0].createdAt)
      measurements.map(m => { m.createdAt = timestamp; return m; })] *)
Definition stampCreatedAt (timestamp : Val) (measurements : list Measurement)
    : list Measurement :=
  match measurements with
  | [] => measurements
  | first :: _ =>
      if truthy timestamp && negb (truthy (get first "createdAt")) then
        map (fun m => set m "createdAt" timestamp) measurements
      else measurements
  end.

Section DecodeBuffer.
(** The profile modules and the validator of openSenseMapAPI are required
    from other files. *)
Variables profileDebug profileLoraserial profileSenseboxhome : Profile.
Variable transformAndValidateArray :
  list Measurement → Result (list Measurement).

Definition profiles (name : string) : option Profile :=
  if bool_decide (name = "debug"%string) then Some profileDebug
  else if bool_decide (name = "lora-serialization"%string) then Some profileLoraserial
  else if bool_decide (name = "sensebox/home"%string) then Some profileSenseboxhome
  else None.

(** The promise [decodeBuffer] returns: fulfilled is [Ok], rejected is
    [Throw]. *)
Definition decodeBuffer (buffer : list Z) (box : Box.t) (timestamp : Val)
    : Result (list Measurement) :=
  match Box.integrations box ≫= Box.ttn with
  | None => Throw (Error "box has no TTN configuration")
  | Some ttn =>
      match profiles (Box.profile ttn) with
      | None =>
          Throw (Error ("profile '" +:+ Box.profile ttn +:+ "' is not supported"))
      | Some profile =>
          bufferTransformer ← createBufferTransformer profile box;
          measurements ← completion (bufferToMeasurements buffer bufferTransformer);
          transformAndValidateArray (stampCreatedAt timestamp measurements)
      end
  end.

End DecodeBuffer.
(** ** Vocabulary of the specification *)

(** The value a hook stamps on a measurement. *)
Definition stamp (args : Args.t) (carrier m : Measurement) : Measurement :=
  set m (Args.property args) (carrierValue args carrier).

Definition notCarrier (sensorId : Val) (m : Measurement) : Prop :=
  isCarrier sensorId m = false.

(** The array ends or goes on with a carrier. *)
Definition startsWithCarrier (sensorId : Val) (ms : list Measurement) : Prop :=
  match ms with
  | [] => True
  | m :: _ => isCarrier sensorId m = true
  end.


(** The measurement [{sensor_id: id, value: v}]. *)
Definition measurement (id : string) (v : Z) : Measurement :=
  {[ "sensor_id" := VStr id; "value" := VNum v ]}.

(** The hook of the specification's example: carrier sensor ['t'],
    attribute ['createdAt'], no transformer. *)
Definition createdAtFromT : Args.t :=
  {| Args.sensorId := VStr "t";
     Args.property := "createdAt";
     Args.transformer := None |}.

Definition exampleMeasurements : list Measurement :=
  [ measurement "t" 100; measurement "x" 5;
    measurement "t" 200; measurement "y" 6 ].

(** [Σ segment.byteLength]. *)
Definition declaredLength (bufferTransformer : list Mask.t) : Z :=
  foldr Z.add 0 (Mask.bytes <$> bufferTransformer).

(** The number of carrier matches the propagation hooks find: a hook finds
    one when the array it receives has an entry of its sensor. The hooks
    run one after the other on the array the previous one left. *)
Definition findsCarrier (args : Args.t) (ms : list Measurement) : bool :=
  existsb (isCarrier (Args.sensorId args)) ms.

Fixpoint carrierMatches (hooks : list (option Args.t))
    (ms : list Measurement) : nat :=
  match hooks with
  | [] => 0
  | None :: rest => carrierMatches rest ms
  | Some args :: rest =>
      ((if findsCarrier args ms then 1 else 0)
       + carrierMatches rest (applyValueFromMeasurement args ms))%nat
  end.

(** What the hooks leave behind. *)
Fixpoint afterHooks (hooks : list (option Args.t))
    (ms : list Measurement) : list Measurement :=
  match hooks with
  | [] => ms
  | None :: rest => afterHooks rest ms
  | Some args :: rest => afterHooks rest (applyValueFromMeasurement args ms)
  end.

(** A bufferTransformer of two segments of two bytes each, the first with
    a propagation hook. *)
Definition exampleTransformer : list Mask.t :=
  [ {| Mask.bytes := 2; Mask.sensorId := VStr "t";
       Mask.transformer := fun bytes => VNum (bytesToInt bytes);
       Mask.onResult := Some (applyValueFromMeasurement createdAtFromT) |};
    {| Mask.bytes := 2; Mask.sensorId := VStr "x";
       Mask.transformer := fun bytes => VNum (bytesToInt bytes);
       Mask.onResult := None |} ].

(** A profile without hooks: one segment of two bytes. *)
Definition plainTransformer : list Mask.t :=
  [ {| Mask.bytes := 2; Mask.sensorId := VStr "x";
       Mask.transformer := fun bytes => VNum (bytesToInt bytes);
       Mask.onResult := None |} ].

Definition exampleProfile : Profile :=
  {| createBufferTransformer := fun _ => Ok plainTransformer |}.

(** A box that selects the debug profile. *)
Definition exampleBox : Box.t :=
  {| Box.sensors := [];
     Box.integrations :=
       Some {| Box.ttn := Some {| Box.profile := "debug" |} |} |}.

(** The sensor has an identifier: [sensor._id.toString()] returns. *)
Definition hasId (sensor : Obj) : Prop :=
  ∃ id, toString (get sensor "_id") = Ok id.

(** What [findSensorIds] records for a role, given what the scan of the
    role's attributes returned. *)
Definition recorded (found : option string) (before : option string)
    : option string :=
  match found with
  | Some id => Some id
  | None => before
  end.

(** The sensors and the matchings of the specification's example, with
    the identifier in [_id], where findSensorIds reads it. *)
Definition humiditySensor : Obj :=
  {[ "_id" := VStr "a"; "title" := VStr "Humidity" ]}.
Definition pressureSensor : Obj :=
  {[ "_id" := VStr "b"; "title" := VStr "Pressure" ]}.

Definition exampleMatchings : Matchings :=
  [ ("humidity", [("title", ["humidity"])]);
    ("temperature", [("title", ["temp"])]) ]%string.

(** The same sensors as the specification writes them, with the
    identifier in [id]. *)
Definition humiditySensor_id : Obj :=
  {[ "id" := VStr "a"; "title" := VStr "Humidity" ]}.
Definition pressureSensor_id : Obj :=
  {[ "id" := VStr "b"; "title" := VStr "Pressure" ]}.

(** A sensor that serves two roles, and one that matches a later attribute
    of a role only. *)
Definition hdcSensor : Obj :=
  {[ "_id" := VStr "c"; "title" := VStr "Temperatur"; "type" := VStr "HDC1008" ]}.

Definition twoRoleMatchings : Matchings :=
  [ ("humidity", [("title", ["rel. luftfeuchte"; "Humidity"]); ("type", ["HDC1008"])]);
    ("temperature", [("title", ["temperatur"])]) ]%string.

(** ** Further vocabulary *)

(** Two alias lists accept the same values: they hold the same aliases up
    to letter case, in any order and any number of times. *)
Definition sameAliases `{StringOps} (aliases1 aliases2 : list string) : Prop :=
  ∀ x, x ∈ map toLowerCase aliases1 ↔ x ∈ map toLowerCase aliases2.

(** Two matchings have the same roles and attributes in the same order,
    with alias lists that accept the same values. *)
Definition sameMatchings `{StringOps} (matchings1 matchings2 : Matchings) : Prop :=
  Forall2 (fun r1 r2 =>
             r1.1 = r2.1
             ∧ Forall2 (fun p1 p2 => p1.1 = p2.1 ∧ sameAliases p1.2 p2.2)
                       r1.2 r2.2)
          matchings1 matchings2.

(** Two sensors differ in the letter case of attribute values only: they
    have the same [_id], the same attributes are falsy in both, and the
    strings of an attribute that is not falsy are equal up to letter
    case. *)
Definition sameUpToCase `{StringOps} (sensor1 sensor2 : Obj) : Prop :=
  get sensor1 "_id" = get sensor2 "_id"
  ∧ ∀ sensorProp,
      truthy (get sensor1 sensorProp) = truthy (get sensor2 sensorProp)
      ∧ ∀ s1 s2,
          toString (get sensor1 sensorProp) = Ok s1 →
          toString (get sensor2 sensorProp) = Ok s2 →
          toLowerCase s1 = toLowerCase s2.

(** The number of entries of the sensor in an array. *)
Definition countCarriers (sensorId : Val) (ms : list Measurement) : nat :=
  length (List.filter (isCarrier sensorId) ms).

(** The array without its first entry of the sensor. *)
Fixpoint withoutFirstCarrier (sensorId : Val) (ms : list Measurement)
    : list Measurement :=
  match ms with
  | [] => []
  | m :: rest =>
      if isCarrier sensorId m then rest
      else m :: withoutFirstCarrier sensorId rest
  end.

(** A buffer cut into consecutive pieces of the given lengths. *)
Fixpoint chunks (buffer : list Z) (lengths : list nat) : list (list Z) :=
  match lengths with
  | [] => []
  | n :: rest => take n buffer :: chunks (drop n buffer) rest
  end.

(** The byte counts of the segments. *)
Definition byteCounts (bufferTransformer : list Mask.t) : list nat :=
  (fun mask => Z.to_nat (Mask.bytes mask)) <$> bufferTransformer.

(** The measurement a segment yields from its piece of the buffer. *)
Definition measurementOf (mask : Mask.t) (maskedBytes : list Z) : Measurement :=
  {[ "sensor_id" := Mask.sensorId mask;
     "value" := Mask.transformer mask maskedBytes ]}.

(** The hooks of a bufferTransformer, in segment order. *)
Definition hooksOf (bufferTransformer : list Mask.t)
    : list (list Measurement → list Measurement) :=
  omap Mask.onResult bufferTransformer.

(** The arrays the hooks receive, each the one the hook before left. *)
Fixpoint hookInputs (hooks : list (list Measurement → list Measurement))
    (result : list Measurement) : list (list Measurement) :=
  match hooks with
  | [] => []
  | hook :: rest => result :: hookInputs rest (hook result)
  end.

(** ** The TTN client: [getOrRegisterDevice], [onUplinkMessage] (ttn.js) *)

(** The options [getOrRegisterDevice] registers a device with. *)
Record DeviceOpts : Type := {
  devEui : Val;
  appEui : Val;
  disableFCntCheck : bool;
  appKey : string;
  nwkSKey : string;
  appSKey : string;
  devAddr : string
}.

Inductive LogLevel : Type := Debug | Info | Warn | LogError.

(** What a promise of this module is rejected with: an instance of
    [TTNError] or another error. *)
Inductive Rejection : Type :=
| TTNError (message : string)
| OtherError (e : Exn).

(** [err.message] *)
Definition message (e : Exn) : string :=
  match e with
  | Error m => m
  | TypeError m => m
  end.

(** The calls into the modules [ttn.js] requires (the ttn client, the
    database, the decoder, the logger), in the order they are made. *)
Inductive TtnCall : Type :=
| CallGetApp
| CallDevice (boxId : string)
| CallRegisterDevice (boxId : string) (deviceOpts : DeviceOpts)
| CallKey (length : nat)
| CallBoxFromDevId (app_id : Val) (dev_id : string) (port : Val)
| CallDecodeRequest (message : Obj) (box : Box.t)
| CallSaveMeasurementsArray (box : Box.t) (measurements : list Measurement)
| CallLog (level : LogLevel) (msg : string).

(** The world outside this module and the modules that act on it (the
    ttn client, the configuration, the database, the decoder). A promise
    is given by its outcome and the world it leaves. *)
Class Outside : Type := {
  World : Type;
  App : Type;
  appClientEui : App → Val;
  cfgAppId : string;
  getAppOutcome : World → Result App * World;
  deviceOutcome : App → string → World → Result Obj * World;
  registerDeviceOutcome :
    App → string → DeviceOpts → World → Result unit * World;
  keyOutcome : nat → World → string * World;
  boxFromDevIdOutcome :
    Val → string → Val → World → (Box.t + Rejection) * World;
  decodeRequestOutcome :
    Obj → Box.t → World → (list Measurement + Rejection) * World;
  saveMeasurementsArrayOutcome :
    Box.t → list Measurement → World → (unit + Rejection) * World
}.

Section Ttn.
Context `{Outside}.

(** A computation acts on the world and makes calls. *)
Definition Io (A : Type) : Type := World → A * World * list TtnCall.

Definition ioRet {A : Type} (a : A) : Io A := fun w => (a, w, []).

Definition ioBind {A B : Type} (m : Io A) (k : A → Io B) : Io B :=
  fun w =>
    let '(a, w1, calls1) := m w in
    let '(b, w2, calls2) := k a w1 in
    (b, w2, calls1 ++ calls2).

(** One call into another module. *)
Definition call {A : Type} (c : TtnCall) (outcome : World → A * World) : Io A :=
  fun w => let '(a, w1) := outcome w in (a, w1, [c]).

Definition log (level : LogLevel) (msg : string) : Io unit :=
  call (CallLog level msg) (fun w => (tt, w)).

Definition getApp : Io (Result App) := call CallGetApp getAppOutcome.

Definition appDevice (app : App) (boxId : string) : Io (Result Obj) :=
  call (CallDevice boxId) (deviceOutcome app boxId).

Definition appRegisterDevice (app : App) (boxId : string)
    (deviceOpts : DeviceOpts) : Io (Result unit) :=
  call (CallRegisterDevice boxId deviceOpts)
       (registerDeviceOutcome app boxId deviceOpts).

Definition key (length : nat) : Io string :=
  call (CallKey length) (keyOutcome length).

(** [`handler:device:${cfg.ttn.appId}:${boxId} not found`] *)
Definition notFoundMessage (boxId : string) : string :=
  "handler:device:" +:+ cfgAppId +:+ ":" +:+ boxId +:+ " not found".

(** The [.catch] handler of [getOrRegisterDevice]; [app] is the variable
    the [.then] callback assigns, still undefined when [getApp()] was
    rejected. *)
Definition registerOnNotFound (boxId : string) (dev_eui : Val)
    (app : option App) (err : Exn) : Io (Result Obj) :=
  if bool_decide (message err ≠ notFoundMessage boxId) then
    ioRet (Throw (Error ("could not find a device for box " +:+ boxId
                         +:+ ": " +:+ message err)))
  else
    ioBind (log Info ("box " +:+ boxId
                      +:+ " has no TTN device, registering a new one"))
    (fun _ =>
    ioBind (if truthy dev_eui then ioRet dev_eui
            else ioBind (key 7) (fun k => ioRet (VStr ("00" +:+ k))))
    (fun devEui =>
    match app with
    | None =>
        ioRet (Throw (TypeError "Cannot read property 'appEui' of undefined"))
    | Some app =>
        ioBind (key 16) (fun appKey =>
        ioBind (key 16) (fun nwkSKey =>
        ioBind (key 16) (fun appSKey =>
        ioBind (key 2) (fun addr =>
        let deviceOpts :=
          {| devEui := devEui;
             appEui := appClientEui app;
             disableFCntCheck := true;
             appKey := appKey;
             nwkSKey := nwkSKey;
             appSKey := appSKey;
             devAddr := "2601" +:+ addr |} in
        ioBind (appRegisterDevice app boxId deviceOpts) (fun registered =>
        match registered with
        | Ok _ => appDevice app boxId
        | Throw e => ioRet (Throw e)
        end)))))
    end)).

(** [getApp().then(ttnApp => { app = ttnApp; return app.device(boxId); })
      .catch(err => ...)] *)
Definition getOrRegisterDevice (boxId : string) (dev_eui : Val)
    : Io (Result Obj) :=
  ioBind getApp (fun ttnApp =>
  match ttnApp with
  | Throw err => registerOnNotFound boxId dev_eui None err
  | Ok app =>
      ioBind (appDevice app boxId) (fun device =>
      match device with
      | Ok device => ioRet (Ok device)
      | Throw err => registerOnNotFound boxId dev_eui (Some app) err
      end)
  end).

(** The [.catch] handler of [onUplinkMessage]; [log.error({ err })] has
    no text. *)
Definition logRejection (err : Rejection) : Io unit :=
  match err with
  | TTNError _ => log Warn "could not handle uplink message"
  | OtherError _ => log LogError ""
  end.

(** [onUplinkMessage]: the promise chain it starts. *)
Definition onUplinkMessage (dev_id : string) (message : Obj) : Io unit :=
  let app_id := get message "app_id" in
  let port := get message "port" in
  ioBind (call (CallBoxFromDevId app_id dev_id port)
               (boxFromDevIdOutcome app_id dev_id port)) (fun found =>
  match found with
  | inr err => logRejection err
  | inl box =>
      ioBind (log Debug ("matched box for dev_id " +:+ dev_id)) (fun _ =>
      ioBind (call (CallDecodeRequest message box)
                   (decodeRequestOutcome message box)) (fun decoded =>
      match decoded with
      | inr err => logRejection err
      | inl measurements =>
          ioBind (log Debug "resulting measurements") (fun _ =>
          ioBind (call (CallSaveMeasurementsArray box measurements)
                       (saveMeasurementsArrayOutcome box measurements))
          (fun saved =>
          match saved with
          | inr err => logRejection err
          | inl _ => log Info ("saved measurements for " +:+ dev_id)
          end))
      end))
  end).

End Ttn.

Definition isRegisterCall (c : TtnCall) : bool :=
  match c with
  | CallRegisterDevice _ _ => true
  | _ => false
  end.

Definition isSaveCall (c : TtnCall) : bool :=
  match c with
  | CallSaveMeasurementsArray _ _ => true
  | _ => false
  end.

(** An outside world for the examples: the registered devices by id, an
    application that is always reached, a database with one box and a
    decoder with one result. *)
Definition exampleOutside : Outside :=
  {| World := gmap string Obj;
     App := unit;
     appClientEui := fun _ => VStr "70B3D57ED0000001";
     cfgAppId := "osem";
     getAppOutcome := fun w => (Ok tt, w);
     deviceOutcome := fun _ id w =>
       (match w !! id with
        | Some device => Ok device
        | None => Throw (Error ("handler:device:osem:" +:+ id +:+ " not found"))
        end, w);
     registerDeviceOutcome := fun _ id opts w =>
       (Ok tt, <[id := {[ "devEui" := devEui opts ]}]> w);
     keyOutcome := fun n w => ("00"%string, w);
     boxFromDevIdOutcome := fun _ _ _ w => (inl exampleBox, w);
     decodeRequestOutcome := fun _ _ w => (inl [measurement "x" 1], w);
     saveMeasurementsArrayOutcome := fun _ _ w => (inl tt, w) |}.

(** * Properties *)

(** ** 32-bit integer facts *)
Lemma toInt32_range z : Int32.inRange (Int32.toInt32 z).
Proof.
  unfold Int32.inRange, Int32.toInt32.
  pose proof (Z.mod_pos_bound (z + 2 ^ 31) (2 ^ 32) ltac:(lia)). lia.
Qed.

Lemma toInt32_id z : Int32.inRange z -> Int32.toInt32 z = z.
Proof.
  unfold Int32.inRange, Int32.toInt32. intros Hz.
  rewrite Z.mod_small by lia. lia.
Qed.

Lemma toInt32_wrap z :
  2 ^ 31 <= z < 2 ^ 32 -> Int32.toInt32 z = z - 2 ^ 32.
Proof.
  unfold Int32.toInt32. intros Hz.
  replace (z + 2 ^ 31) with ((z - 2 ^ 31) + 1 * 2 ^ 32) by lia.
  rewrite Z.mod_add by lia. rewrite Z.mod_small by lia. lia.
Qed.

(** Bits below [k] of a multiple of [2^k] are clear, so or-ing it with a
    [k]-bit value is an addition; the multiple may be negative. *)
Lemma lor_low_high a c k :
  0 <= k -> 0 <= a < 2 ^ k -> Z.lor a (c * 2 ^ k) = a + c * 2 ^ k.
Proof.
  intros Hk Ha.
  assert (Hland : Z.land a (c * 2 ^ k) = 0).
  { apply Z.bits_inj'. intros n Hn.
    rewrite Z.land_spec, Z.bits_0.
    destruct (Z.lt_ge_cases n k) as [Hlt | Hge].
    - rewrite Z.mul_pow2_bits_low by lia. apply andb_false_r.
    - destruct (Z.eq_dec a 0) as [-> | Hne].
      + now rewrite Z.bits_0.
      + rewrite (Z.bits_above_log2 a n); [reflexivity | lia |].
        apply Z.log2_lt_pow2; [lia |].
        apply Z.lt_le_trans with (2 ^ k); [lia |].
        apply Z.pow_le_mono_r; lia. }
  rewrite Z.add_nocarry_lxor by exact Hland.
  symmetry. apply Z.lxor_lor. exact Hland.
Qed.


Lemma shl_byte (b k : Z) :
  isByte b -> 0 <= k <= 3 ->
  Int32.shl b (k * 8) = Int32.toInt32 (b * 2 ^ (8 * k)).
Proof.
  intros Hb Hk. unfold Int32.shl.
  rewrite (toInt32_id b) by (unfold isByte, Int32.inRange in *; lia).
  assert (Hs : Z.land (k * 8) 31 = 8 * k).
  { assert (Hc : k = 0 \/ k = 1 \/ k = 2 \/ k = 3) by lia.
    destruct Hc as [-> | [-> | [-> | ->]]]; reflexivity. }
  rewrite Hs, Z.shiftl_mul_pow2 by lia. reflexivity.
Qed.

Lemma or_id (a b : Z) :
  Int32.inRange a -> Int32.inRange b -> Int32.or a b = Z.lor a b.
Proof. intros Ha Hb. unfold Int32.or. now rewrite !toInt32_id. Qed.

Lemma or_shl_step (v b k : Z) :
  0 <= k <= 3 -> 0 <= v < 2 ^ (8 * k) -> isByte b ->
  Int32.or v (Int32.shl b (k * 8)) = Int32.toInt32 (v + b * 2 ^ (8 * k)).
Proof.
  intros Hk Hv Hb. rewrite shl_byte by assumption.
  assert (Hp : 0 < 2 ^ (8 * k)) by (apply Z.pow_pos_nonneg; lia).
  assert (Hc : k = 0 \/ k = 1 \/ k = 2 \/ k = 3) by lia.
  unfold isByte in Hb.
  destruct (Z_lt_ge_dec (b * 2 ^ (8 * k)) (2 ^ 31)) as [Hlo | Hhi].
  - rewrite (toInt32_id (b * _)) by (unfold Int32.inRange; lia).
    rewrite or_id.
    + rewrite lor_low_high by lia.
      symmetry. apply toInt32_id. unfold Int32.inRange.
      destruct Hc as [-> | [-> | [-> | ->]]]; cbn in *; lia.
    + unfold Int32.inRange.
      destruct Hc as [-> | [-> | [-> | ->]]]; cbn in *; lia.
    + unfold Int32.inRange. lia.
  - assert (k = 3) as -> by (destruct Hc as [-> | [-> | [-> | ->]]]; cbn in *; lia).
    change (8 * 3) with 24 in *.
    rewrite (toInt32_wrap (b * _)) by lia.
    rewrite (toInt32_wrap (v + _)) by lia.
    replace (b * 2 ^ 24 - 2 ^ 32) with ((b - 256) * 2 ^ 24) by lia.
    rewrite or_id.
    + rewrite lor_low_high by lia. lia.
    + unfold Int32.inRange. lia.
    + unfold Int32.inRange. lia.
Qed.

Lemma bytesToInt_from_le4 (bytes : list Z) : forall (i v : Z),
  Forall isByte bytes -> 0 <= i -> i + Z.of_nat (length bytes) <= 4 ->
  0 <= v < 2 ^ (8 * i) -> v < 2 ^ 31 ->
  bytesToInt_from i bytes v = Int32.toInt32 (v + littleEndianSum_from i bytes).
Proof.
  induction bytes as [| b rest IH]; intros i v Hb Hi Hlen Hv Hv31.
  - cbn [bytesToInt_from littleEndianSum_from].
    rewrite Z.add_0_r. symmetry. apply toInt32_id.
    unfold Int32.inRange. lia.
  - apply Forall_cons in Hb. destruct Hb as [Hb Hrest].
    cbn [length] in Hlen. cbn [bytesToInt_from littleEndianSum_from].
    rewrite or_shl_step by (assumption || lia).
    destruct rest as [| b' rest'].
    + cbn. now rewrite Z.add_0_r.
    + cbn [length] in Hlen.
      assert (Hs : 0 <= v + b * 2 ^ (8 * i) < 2 ^ (8 * (i + 1))).
      { unfold isByte in Hb.
        replace (8 * (i + 1)) with (8 * i + 8) by lia.
        rewrite Z.pow_add_r by lia. nia. }
      assert (Hp : 2 ^ (8 * (i + 1)) <= 2 ^ (8 * 3)) by (apply Z.pow_le_mono_r; lia).
      change (8 * 3) with 24 in Hp.
      rewrite toInt32_id by (unfold Int32.inRange; lia).
      rewrite IH by (assumption || (cbn [length]; lia)).
      f_equal. lia.
Qed.

(** ** ByteCodec *)

Lemma bytesToInt_toInt32 (bytes : list Z) :
  Forall isByte bytes -> (length bytes <= 4)%nat ->
  bytesToInt bytes = Int32.toInt32 (littleEndianSum bytes).
Proof.
  intros Hb Hlen. unfold bytesToInt, littleEndianSum.
  rewrite bytesToInt_from_le4; [reflexivity | assumption | lia | lia | cbn; lia | lia].
Qed.

(** C2 (as amended). For every byte sequence of length 1 to 4, bytesToInt
    returns the little-endian sum [Σ byte[i]·2^(8·i)] read as a signed
    32-bit integer: the unsigned sum itself for lengths 1 to 3 and for a
    fourth byte below 0x80, the sum minus 2^32 for a fourth byte of 0x80 or
    more. bytesToInt([0x01]) = 1, bytesToInt([0xFF, 0x00]) = 255 and
    bytesToInt([0x00, 0x01]) = 256. *)
Theorem bytesToInt_little_endian_int32 (bytes : list Z) :
  Forall isByte bytes -> (1 <= length bytes <= 4)%nat ->
  bytesToInt bytes = Int32.toInt32 (littleEndianSum bytes)
  /\ ((length bytes <= 3)%nat -> bytesToInt bytes = littleEndianSum bytes)
  /\ (forall b, bytes !! 3%nat = Some b ->
        bytesToInt bytes =
          if b <? 128 then littleEndianSum bytes
          else littleEndianSum bytes - 2 ^ 32)
  /\ bytesToInt [1] = 1
  /\ bytesToInt [255; 0] = 255
  /\ bytesToInt [0; 1] = 256.
Proof.
  intros Hb Hlen.
  assert (Hgen := bytesToInt_toInt32 bytes Hb ltac:(lia)).
  split; [exact Hgen |].
  split; [| split; [| repeat split; reflexivity]].
  - intros H3. rewrite Hgen. apply toInt32_id.
    destruct bytes as [| b0 [| b1 [| b2 [| b3 rest]]]];
      cbn [length] in *; try lia;
      repeat match goal with
             | H : Forall _ (_ :: _) |- _ => apply Forall_cons in H; destruct H
             end;
      unfold isByte, Int32.inRange, littleEndianSum in *;
      cbn [littleEndianSum_from]; cbn; lia.
  - intros b H3. rewrite Hgen.
    destruct bytes as [| b0 [| b1 [| b2 [| b3 [| b4 rest]]]]];
      cbn [length] in *; try lia; try discriminate H3.
    injection H3 as ->.
    repeat match goal with
           | H : Forall _ (_ :: _) |- _ => apply Forall_cons in H; destruct H
           end.
    unfold isByte, littleEndianSum in *. cbn [littleEndianSum_from]. cbn.
    destruct (Z.ltb_spec b 128).
    + apply toInt32_id. unfold Int32.inRange. lia.
    + apply toInt32_wrap. lia.
Qed.

Lemma bytesToInt_little_endian_int32_witness :
  bytesToInt [1; 2; 3; 200] = Int32.toInt32 (littleEndianSum [1; 2; 3; 200])
  /\ bytesToInt [1; 2; 3; 200] = littleEndianSum [1; 2; 3; 200] - 2 ^ 32.
Proof.
  assert (Hb : Forall isByte [1; 2; 3; 200])
    by (repeat constructor; unfold isByte; lia).
  assert (Hlen : (1 <= length [1; 2; 3; 200] <= 4)%nat) by (cbn; lia).
  destruct (bytesToInt_little_endian_int32 [1; 2; 3; 200] Hb Hlen)
    as (H1 & _ & H3 & _).
  split; [exact H1 | exact (H3 200 eq_refl)].
Defined.

(** The claim as the specification has it fails on four bytes whose last
    byte has its high bit set: the code yields a negative number. *)
Lemma bytesToInt_not_unsigned :
  Forall isByte [0; 0; 0; 128] /\ (1 <= length [0; 0; 0; 128] <= 4)%nat
  /\ bytesToInt [0; 0; 0; 128] = - 2147483648
  /\ littleEndianSum [0; 0; 0; 128] = 2147483648
  /\ bytesToInt [0; 0; 0; 128] <> littleEndianSum [0; 0; 0; 128].
Proof.
  split; [repeat constructor; unfold isByte; lia |].
  split; [cbn; lia |].
  split; [reflexivity |]. split; [reflexivity |]. discriminate.
Qed.

(** ** ValuePropagator *)

Lemma stampFollowing_app sensorId property value (mid post : list Measurement) :
  Forall (notCarrier sensorId) mid -> startsWithCarrier sensorId post ->
  stampFollowing sensorId property value (mid ++ post)
  = map (fun m => set m property value) mid ++ post.
Proof.
  intros Hmid Hpost.
  induction Hmid as [| m mid Hm _ IH]; cbn [stampFollowing app map].
  - destruct post as [| c post']; [reflexivity |].
    cbn [startsWithCarrier stampFollowing] in *. now rewrite Hpost.
  - unfold notCarrier in Hm. rewrite Hm. now rewrite IH.
Qed.

Lemma applyValueFromMeasurement_no_carrier args (ms : list Measurement) :
  Forall (notCarrier (Args.sensorId args)) ms ->
  applyValueFromMeasurement args ms = ms.
Proof.
  induction 1 as [| m ms Hm _ IH];
    cbn [applyValueFromMeasurement]; [reflexivity |].
  unfold notCarrier in Hm. now rewrite Hm, IH.
Qed.

Lemma applyValueFromMeasurement_carrier args (pre mid post : list Measurement) c :
  Forall (notCarrier (Args.sensorId args)) pre ->
  isCarrier (Args.sensorId args) c = true ->
  Forall (notCarrier (Args.sensorId args)) mid ->
  startsWithCarrier (Args.sensorId args) post ->
  applyValueFromMeasurement args (pre ++ c :: mid ++ post)
  = pre ++ map (stamp args c) mid ++ post.
Proof.
  intros Hpre Hc Hmid Hpost.
  induction Hpre as [| m pre Hm _ IH]; cbn [applyValueFromMeasurement app].
  - rewrite Hc. now apply stampFollowing_app.
  - unfold notCarrier in Hm. now rewrite Hm, IH.
Qed.

(** Every array splits at its first carrier and at the next one. *)
Lemma split_at_carriers sensorId (ms : list Measurement) :
  Forall (notCarrier sensorId) ms
  \/ exists pre c mid post,
       ms = pre ++ c :: mid ++ post
       /\ Forall (notCarrier sensorId) pre
       /\ isCarrier sensorId c = true
       /\ Forall (notCarrier sensorId) mid
       /\ startsWithCarrier sensorId post.
Proof.
  assert (Hsuffix : forall l : list Measurement, exists mid post,
            l = mid ++ post /\ Forall (notCarrier sensorId) mid
            /\ startsWithCarrier sensorId post).
  { induction l as [| m l (mid & post & -> & Hmid & Hpost)].
    - exists [], []. repeat split; constructor.
    - destruct (isCarrier sensorId m) eqn:Hm.
      + exists [], (m :: mid ++ post). repeat split; [constructor | exact Hm].
      + exists (m :: mid), post. repeat split; [now constructor | exact Hpost]. }
  induction ms as [| m ms IH].
  - left. constructor.
  - destruct (isCarrier sensorId m) eqn:Hm.
    + right. destruct (Hsuffix ms) as (mid & post & -> & Hmid & Hpost).
      exists [], m, mid, post. repeat split; try assumption. constructor.
    + destruct IH as [Hall | (pre & c & mid & post & -> & Hpre & Hc & Hmid & Hpost)].
      * left. now constructor.
      * right. exists (m :: pre), c, mid, post.
        repeat split; try assumption. now constructor.
Qed.

(** The loops over indices compute the same array, within their fuel. *)
Lemma whileLoop_stampFollowing sensorId property value (rest : list Measurement) :
  forall (fuel : nat) (pre : list Measurement),
  (length rest <= fuel)%nat ->
  Loops.whileLoop fuel sensorId property value (length pre) (pre ++ rest)
  = Some (pre ++ stampFollowing sensorId property value rest).
Proof.
  induction rest as [| m rest IH]; intros fuel pre Hfuel.
  - destruct fuel; cbn; rewrite lookup_ge_None_2; try reflexivity;
      rewrite length_app; cbn; lia.
  - assert (Hk : (pre ++ m :: rest) !! length pre = Some m)
      by (rewrite lookup_app_r by lia; now rewrite Nat.sub_diag).
    destruct fuel as [| fuel]; [cbn in Hfuel; lia |].
    cbn [Loops.whileLoop stampFollowing]. rewrite Hk.
    destruct (isCarrier sensorId m); [reflexivity |].
    rewrite insert_app_r_alt by lia. rewrite Nat.sub_diag. cbn [insert list_insert].
    specialize (IH fuel (pre ++ [set m property value])).
    rewrite length_app in IH. cbn [length] in IH.
    rewrite Nat.add_1_r in IH. rewrite <- !app_assoc in IH. cbn in IH.
    apply IH. cbn in Hfuel. lia.
Qed.

Lemma forLoop_applyValueFromMeasurement args (rest : list Measurement) :
  forall (fuel : nat) (pre : list Measurement),
  (length rest <= fuel)%nat ->
  Loops.forLoop fuel args (length pre) (pre ++ rest)
  = Some (pre ++ applyValueFromMeasurement args rest).
Proof.
  induction rest as [| m rest IH]; intros fuel pre Hfuel.
  - destruct fuel; cbn; rewrite lookup_ge_None_2; try reflexivity;
      rewrite length_app; cbn; lia.
  - assert (Hk : (pre ++ m :: rest) !! length pre = Some m)
      by (rewrite lookup_app_r by lia; now rewrite Nat.sub_diag).
    destruct fuel as [| fuel]; [cbn in Hfuel; lia |].
    cbn [Loops.forLoop applyValueFromMeasurement]. rewrite Hk.
    destruct (isCarrier (Args.sensorId args) m).
    + rewrite delete_middle.
      apply whileLoop_stampFollowing. rewrite length_app. lia.
    + specialize (IH fuel (pre ++ [m])).
      rewrite length_app in IH. cbn [length] in IH.
      rewrite Nat.add_1_r in IH. rewrite <- !app_assoc in IH. cbn in IH.
      apply IH. cbn in Hfuel. lia.
Qed.

Lemma hook_applyValueFromMeasurement args (ms : list Measurement) :
  Loops.hook args ms = Some (applyValueFromMeasurement args ms).
Proof.
  unfold Loops.hook.
  exact (forLoop_applyValueFromMeasurement args ms (length ms) [] (le_n _)).
Qed.

(** C3. A hook built by applyValueFromMeasurement for [sensorId] and
    [property]: leaves an array without an entry of that sensor as it is;
    otherwise removes the first entry [c] of that sensor, takes
    [transformer(c.value)] (or [c.value] when no transformer is given) and
    assigns it to [property] of the entries that follow, up to the end of
    the array or up to the next entry of that sensor, which stays as it is
    together with everything behind it; a carrier in last position is
    removed and nothing is annotated. Every array falls under one of the
    two cases. *)
Theorem applyValueFromMeasurement_first_carrier
    (args : Args.t) (ms : list Measurement) :
  Loops.hook args ms = Some (applyValueFromMeasurement args ms)
  /\ (Forall (notCarrier (Args.sensorId args)) ms ->
      Loops.hook args ms = Some ms)
  /\ (forall pre c mid post,
        ms = pre ++ c :: mid ++ post ->
        Forall (notCarrier (Args.sensorId args)) pre ->
        isCarrier (Args.sensorId args) c = true ->
        Forall (notCarrier (Args.sensorId args)) mid ->
        startsWithCarrier (Args.sensorId args) post ->
        let value :=
          match Args.transformer args with
          | Some f => f (get c "value")
          | None => get c "value"
          end in
        Loops.hook args ms
        = Some (pre ++ map (fun m => set m (Args.property args) value) mid ++ post))
  /\ (forall pre c,
        ms = pre ++ [c] ->
        Forall (notCarrier (Args.sensorId args)) pre ->
        isCarrier (Args.sensorId args) c = true ->
        Loops.hook args ms = Some pre)
  /\ (Forall (notCarrier (Args.sensorId args)) ms
      \/ exists pre c mid post,
           ms = pre ++ c :: mid ++ post
           /\ Forall (notCarrier (Args.sensorId args)) pre
           /\ isCarrier (Args.sensorId args) c = true
           /\ Forall (notCarrier (Args.sensorId args)) mid
           /\ startsWithCarrier (Args.sensorId args) post).
Proof.
  split; [apply hook_applyValueFromMeasurement |].
  split.
  { intros Hno. rewrite hook_applyValueFromMeasurement.
    f_equal. now apply applyValueFromMeasurement_no_carrier. }
  split.
  { intros pre c mid post -> Hpre Hc Hmid Hpost value.
    rewrite hook_applyValueFromMeasurement. f_equal.
    now apply applyValueFromMeasurement_carrier. }
  split.
  { intros pre c -> Hpre Hc.
    rewrite hook_applyValueFromMeasurement. f_equal.
    change (pre ++ [c]) with (pre ++ c :: [] ++ []).
    rewrite applyValueFromMeasurement_carrier; try assumption;
      [now rewrite app_nil_r | constructor | exact I]. }
  apply split_at_carriers.
Qed.

Lemma applyValueFromMeasurement_first_carrier_witness :
  Loops.hook createdAtFromT
    ([measurement "a" 1] ++ measurement "t" 100 :: [measurement "x" 5] ++ [])
  = Some ([measurement "a" 1]
          ++ map (fun m => set m "createdAt" (VNum 100)) [measurement "x" 5] ++ []).
Proof.
  pose proof (applyValueFromMeasurement_first_carrier createdAtFromT
    ([measurement "a" 1] ++ measurement "t" 100 :: [measurement "x" 5] ++ []))
    as (_ & _ & Hcarrier & _).
  apply (Hcarrier [measurement "a" 1] (measurement "t" 100) [measurement "x" 5] []).
  - reflexivity.
  - repeat constructor.
  - reflexivity.
  - repeat constructor.
  - exact I.
Defined.

(** C4 (as amended). The hook for carrier ['t'] and attribute ['createdAt'],
    applied once to [t:100, x:5, t:200, y:6], yields
    [x:5 with createdAt 100, t:200, y:6]: the second carrier stays a
    measurement and ends the stamping, so ['y'] behind it is not stamped. *)
Theorem createdAt_example :
  Loops.hook createdAtFromT exampleMeasurements
  = Some [ <["createdAt" := VNum 100]> (measurement "x" 5);
           measurement "t" 200;
           measurement "y" 6 ]
  /\ applyValueFromMeasurement createdAtFromT exampleMeasurements
     = [ <["createdAt" := VNum 100]> (measurement "x" 5);
         measurement "t" 200;
         measurement "y" 6 ].
Proof. split; vm_compute; reflexivity. Qed.

(** The result the specification gives for this example, with ['y']
    stamped, is not what the hook leaves behind. *)
Lemma createdAt_example_y_not_stamped :
  Loops.hook createdAtFromT exampleMeasurements
  <> Some [ <["createdAt" := VNum 100]> (measurement "x" 5);
            measurement "t" 200;
            <["createdAt" := VNum 100]> (measurement "y" 6) ]
  /\ applyValueFromMeasurement createdAtFromT exampleMeasurements
     <> [ <["createdAt" := VNum 100]> (measurement "x" 5);
          measurement "t" 200;
          <["createdAt" := VNum 100]> (measurement "y" 6) ].
Proof.
  assert (Hfun : applyValueFromMeasurement createdAtFromT exampleMeasurements
     <> [ <["createdAt" := VNum 100]> (measurement "x" 5);
          measurement "t" 200;
          <["createdAt" := VNum 100]> (measurement "y" 6) ]).
  { intros Heq.
    apply (f_equal (fun l : list Measurement => l !! 2%nat ≫= (.!! "createdAt"))) in Heq.
    vm_compute in Heq. discriminate Heq. }
  split; [| exact Hfun].
  rewrite hook_applyValueFromMeasurement. intros Heq. apply Hfun. congruence.
Qed.

(** C7. A propagation hook never reorders measurements. Either the array
    has no carrier and stays as it is, or one carrier entry is removed and
    the entry at each position of the result is the entry at that position
    of the array without the carrier, unchanged or annotated; an annotated
    entry lies behind the removed carrier with no carrier in between. *)
Theorem applyValueFromMeasurement_keeps_order
    (args : Args.t) (ms : list Measurement) :
  (Forall (notCarrier (Args.sensorId args)) ms
   /\ applyValueFromMeasurement args ms = ms)
  \/ exists (k : nat) (c : Measurement),
       ms !! k = Some c
       /\ isCarrier (Args.sensorId args) c = true
       /\ length (applyValueFromMeasurement args ms) = length (delete k ms)
       /\ forall (i : nat) (m : Measurement),
            delete k ms !! i = Some m ->
            applyValueFromMeasurement args ms !! i = Some m
            \/ (applyValueFromMeasurement args ms !! i = Some (stamp args c m)
                /\ (k <= i)%nat
                /\ forall (j : nat) (mj : Measurement),
                     (k <= j <= i)%nat -> delete k ms !! j = Some mj ->
                     notCarrier (Args.sensorId args) mj).
Proof.
  destruct (split_at_carriers (Args.sensorId args) ms)
    as [Hno | (pre & c & mid & post & -> & Hpre & Hc & Hmid & Hpost)].
  - left. split; [exact Hno |]. now apply applyValueFromMeasurement_no_carrier.
  - right. exists (length pre), c.
    rewrite applyValueFromMeasurement_carrier by assumption.
    rewrite delete_middle.
    split; [rewrite lookup_app_r by lia; now rewrite Nat.sub_diag |].
    split; [exact Hc |].
    split; [now rewrite !length_app, length_map |].
    intros i m Hi.
    destruct (Nat.lt_ge_cases i (length pre)) as [Hlt | Hge].
    + left. rewrite lookup_app_l in Hi |- * by assumption. exact Hi.
    + rewrite lookup_app_r in Hi |- * by assumption.
      destruct (Nat.lt_ge_cases (i - length pre) (length mid)) as [Hlt' | Hge'].
      * right. rewrite lookup_app_l in Hi by assumption.
        rewrite lookup_app_l by (now rewrite length_map).
        rewrite list_lookup_fmap, Hi. split; [reflexivity |].
        split; [exact Hge |].
        intros j mj Hj Hmj.
        rewrite lookup_app_r in Hmj by lia.
        rewrite lookup_app_l in Hmj by lia.
        rewrite Forall_lookup in Hmid. exact (Hmid _ _ Hmj).
      * left. rewrite lookup_app_r in Hi by assumption.
        rewrite lookup_app_r by (now rewrite length_map).
        now rewrite length_map.
Qed.

(** ** DecodeEngine *)

Lemma sumBytes_declaredLength (bt : list Mask.t) : forall acc,
  sumBytes acc bt = acc + declaredLength bt.
Proof.
  induction bt as [| mask rest IH]; intros acc; cbn.
  - unfold declaredLength. cbn. lia.
  - rewrite IH. unfold declaredLength. cbn. lia.
Qed.

(** C1. When the sum of the segments' byte lengths differs from the length
    of the buffer, bufferToMeasurements throws the error "incorrect amount
    of bytes, should be <sum>"; it has called no transformer and no hook,
    and completes with no measurements. decodeBuffer, for a box whose
    profile builds this bufferTransformer, is rejected with that error. *)
Theorem bufferToMeasurements_length_mismatch
    (buffer : list Z) (bt : list Mask.t) :
  declaredLength bt <> Z.of_nat (length buffer) ->
  bufferToMeasurements buffer bt
  = MkRun [] (Throw (Error ("incorrect amount of bytes, should be "
                            +:+ pretty (declaredLength bt))))
  /\ calls (bufferToMeasurements buffer bt) = []
  /\ (forall ms, completion (bufferToMeasurements buffer bt) <> Ok ms)
  /\ forall (profileDebug profileLoraserial profileSenseboxhome : Profile)
        (transformAndValidateArray : list Measurement -> Result (list Measurement))
        (box : Box.t) (timestamp : Val)
        (integrations : Box.integrations_t) (ttn : Box.ttn_t) (profile : Profile),
        Box.integrations box = Some integrations ->
        Box.ttn integrations = Some ttn ->
        profiles profileDebug profileLoraserial profileSenseboxhome
          (Box.profile ttn) = Some profile ->
        createBufferTransformer profile box = Ok bt ->
        decodeBuffer profileDebug profileLoraserial profileSenseboxhome
          transformAndValidateArray buffer box timestamp
        = Throw (Error ("incorrect amount of bytes, should be "
                        +:+ pretty (declaredLength bt))).
Proof.
  intros Hne.
  assert (Hrun : bufferToMeasurements buffer bt
    = MkRun [] (Throw (Error ("incorrect amount of bytes, should be "
                              +:+ pretty (declaredLength bt))))).
  { unfold bufferToMeasurements.
    rewrite sumBytes_declaredLength, Z.add_0_l.
    now rewrite bool_decide_eq_true_2 by exact Hne. }
  split; [exact Hrun |]. rewrite Hrun. cbn [calls completion].
  split; [reflexivity |]. split; [discriminate |].
  intros pD pL pS validate box timestamp integrations ttn profile
    Hint Httn Hprofile Hbt.
  unfold decodeBuffer. rewrite Hint. cbn. rewrite Httn, Hprofile, Hbt. cbn.
  now rewrite Hrun.
Qed.

Lemma bufferToMeasurements_length_mismatch_witness :
  bufferToMeasurements [1; 2; 3] exampleTransformer
  = MkRun [] (Throw (Error "incorrect amount of bytes, should be 4"))
  /\ calls (bufferToMeasurements [1; 2; 3] exampleTransformer) = [].
Proof.
  assert (Hne : declaredLength exampleTransformer <> Z.of_nat (length [1; 2; 3]))
    by (vm_compute; discriminate).
  destruct (bufferToMeasurements_length_mismatch [1; 2; 3] exampleTransformer Hne)
    as (Hrun & Hcalls & _).
  split; [exact Hrun | exact Hcalls].
Defined.

Lemma decodeMasks_run (buffer : list Z) (bt : list Mask.t) :
  forall (currByte : Z) (result : list Measurement),
  exists decoded,
    completion (decodeMasks buffer currByte result bt) = Ok (result ++ decoded)
    /\ length decoded = length bt
    /\ length (calls (decodeMasks buffer currByte result bt)) = length bt.
Proof.
  induction bt as [| mask rest IH]; intros currByte result.
  - exists []. cbn. now rewrite app_nil_r.
  - cbn [decodeMasks].
    set (m := ({[ "sensor_id" := Mask.sensorId mask;
                  "value" := Mask.transformer mask
                     (slice buffer currByte (currByte + Mask.bytes mask)) ]}
               : Measurement)).
    destruct (IH (currByte + Mask.bytes mask) (result ++ [m]))
      as (decoded & Hc & Hlen & Hcalls).
    exists (m :: decoded). cbn. fold m.
    rewrite Hc, <- app_assoc. cbn. rewrite Hlen.
    repeat split. now rewrite Hcalls.
Qed.

Lemma stampFollowing_length sensorId property value (ms : list Measurement) :
  length (stampFollowing sensorId property value ms) = length ms.
Proof.
  induction ms as [| m ms IH]; cbn [stampFollowing]; [reflexivity |].
  destruct (isCarrier sensorId m); cbn; [reflexivity | now rewrite IH].
Qed.

Lemma applyValueFromMeasurement_length args (ms : list Measurement) :
  (length (applyValueFromMeasurement args ms)
   + (if findsCarrier args ms then 1 else 0) = length ms)%nat.
Proof.
  unfold findsCarrier.
  induction ms as [| m ms IH]; cbn [applyValueFromMeasurement existsb]; [reflexivity |].
  destruct (isCarrier (Args.sensorId args) m); cbn [orb length].
  - rewrite stampFollowing_length. lia.
  - lia.
Qed.

Lemma afterHooks_length (hooks : list (option Args.t)) :
  forall ms : list Measurement,
  (length (afterHooks hooks ms) + carrierMatches hooks ms = length ms)%nat.
Proof.
  induction hooks as [| [args |] rest IH]; intros ms; cbn [afterHooks carrierMatches].
  - lia.
  - pose proof (IH (applyValueFromMeasurement args ms)).
    pose proof (applyValueFromMeasurement_length args ms). lia.
  - apply IH.
Qed.

Lemma applyOnResult_afterHooks (bt : list Mask.t) :
  forall (hooks : list (option Args.t)) (ms : list Measurement),
  Mask.onResult <$> bt = fmap applyValueFromMeasurement <$> hooks ->
  completion (applyOnResult ms bt) = Ok (afterHooks hooks ms).
Proof.
  induction bt as [| mask rest IH]; intros hooks ms Hhooks.
  - destruct hooks; [reflexivity | discriminate].
  - destruct hooks as [| h hooks]; [discriminate |].
    cbn in Hhooks. injection Hhooks as Hh Hrest.
    cbn [applyOnResult]. rewrite Hh.
    destruct h as [args |]; cbn.
    + now apply IH.
    + now apply IH.
Qed.

(** C8. For a buffer whose length is the declared total, the decoding loop
    leaves as many measurements as the bufferTransformer has segments, one
    transformer call each; when the hooks are propagation hooks, the
    measurements returned are fewer by the number of carrier matches the
    hooks found. *)
Theorem bufferToMeasurements_counts (buffer : list Z) (bt : list Mask.t) :
  declaredLength bt = Z.of_nat (length buffer) ->
  exists decoded,
    completion (decodedMeasurements buffer bt) = Ok decoded
    /\ length decoded = length bt
    /\ bufferToMeasurements buffer bt
       = decodedMeasurements buffer bt ≫= (fun result => applyOnResult result bt)
    /\ forall hooks : list (option Args.t),
         Mask.onResult <$> bt = fmap applyValueFromMeasurement <$> hooks ->
         completion (bufferToMeasurements buffer bt) = Ok (afterHooks hooks decoded)
         /\ (length (afterHooks hooks decoded) + carrierMatches hooks decoded
             = length bt)%nat.
Proof.
  intros Hlen.
  destruct (decodeMasks_run buffer bt 0 []) as (decoded & Hc & Hn & _).
  cbn [app] in Hc. exists decoded.
  assert (Hrun : bufferToMeasurements buffer bt
       = decodedMeasurements buffer bt ≫= (fun result => applyOnResult result bt)).
  { unfold bufferToMeasurements.
    rewrite sumBytes_declaredLength, Z.add_0_l.
    now rewrite bool_decide_eq_false_2 by (intros Hne; now apply Hne). }
  split; [exact Hc |]. split; [exact Hn |]. split; [exact Hrun |].
  intros hooks Hhooks. split.
  - rewrite Hrun. unfold decodedMeasurements, mbind, Run_bind.
    rewrite Hc. cbn. now apply applyOnResult_afterHooks.
  - rewrite <- Hn. apply afterHooks_length.
Qed.

Lemma bufferToMeasurements_counts_witness :
  exists decoded,
    completion (decodedMeasurements [1; 0; 2; 0] exampleTransformer) = Ok decoded
    /\ length decoded = 2%nat
    /\ completion (bufferToMeasurements [1; 0; 2; 0] exampleTransformer)
       = Ok (afterHooks [Some createdAtFromT; None] decoded)
    /\ (length (afterHooks [Some createdAtFromT; None] decoded)
        + carrierMatches [Some createdAtFromT; None] decoded = 2)%nat.
Proof.
  destruct (bufferToMeasurements_counts [1; 0; 2; 0] exampleTransformer eq_refl)
    as (decoded & Hc & Hn & _ & Hhooks).
  exists decoded.
  destruct (Hhooks [Some createdAtFromT; None] eq_refl) as [Hfinal Hcount].
  repeat split; assumption.
Defined.

Lemma stampCreatedAt_stamps (timestamp : Val) (ms : list Measurement) :
  truthy timestamp = true ->
  (forall first, head ms = Some first -> truthy (get first "createdAt") = false) ->
  stampCreatedAt timestamp ms = map (fun m => set m "createdAt" timestamp) ms.
Proof.
  intros Hts Hfirst. destruct ms as [| first rest]; [reflexivity |].
  unfold stampCreatedAt. now rewrite Hts, (Hfirst first eq_refl).
Qed.

Lemma stampCreatedAt_skips (timestamp : Val) (ms : list Measurement) :
  truthy timestamp = false
  \/ (exists first, head ms = Some first /\ truthy (get first "createdAt") = true) ->
  stampCreatedAt timestamp ms = ms.
Proof.
  intros Hcase. destruct ms as [| first rest]; [reflexivity |].
  unfold stampCreatedAt.
  destruct Hcase as [-> | (first' & [= <-] & ->)]; [reflexivity |].
  now rewrite andb_false_r.
Qed.

Lemma get_set_eq (o : Obj) (k : string) (v : Val) : get (set o k v) k = v.
Proof. unfold get, set. now rewrite lookup_insert_eq. Qed.

Lemma get_set_ne (o : Obj) (k k' : string) (v : Val) :
  k <> k' -> get (set o k v) k' = get o k'.
Proof. intros Hne. unfold get, set. now rewrite lookup_insert_ne. Qed.

(** C9. When decodeBuffer has decoded the measurements [ms], it hands
    [stampCreatedAt timestamp ms] to the validator. If a timestamp was
    supplied (it is truthy) and the first measurement carries no createdAt
    (none that is truthy), every measurement has createdAt set to that one
    timestamp and is otherwise as it was; if no timestamp was supplied or
    the first measurement carries a createdAt, the measurements are as
    they were. *)
Theorem decodeBuffer_timestamp
    (profileDebug profileLoraserial profileSenseboxhome : Profile)
    (transformAndValidateArray : list Measurement -> Result (list Measurement))
    (buffer : list Z) (box : Box.t) (timestamp : Val)
    (integrations : Box.integrations_t) (ttn : Box.ttn_t) (profile : Profile)
    (bt : list Mask.t) (ms : list Measurement) :
  Box.integrations box = Some integrations ->
  Box.ttn integrations = Some ttn ->
  profiles profileDebug profileLoraserial profileSenseboxhome (Box.profile ttn)
    = Some profile ->
  createBufferTransformer profile box = Ok bt ->
  completion (bufferToMeasurements buffer bt) = Ok ms ->
  decodeBuffer profileDebug profileLoraserial profileSenseboxhome
    transformAndValidateArray buffer box timestamp
  = transformAndValidateArray (stampCreatedAt timestamp ms)
  /\ (truthy timestamp = true ->
      (forall first, head ms = Some first ->
         truthy (get first "createdAt") = false) ->
      length (stampCreatedAt timestamp ms) = length ms
      /\ forall (i : nat) (m : Measurement), ms !! i = Some m ->
           exists m', stampCreatedAt timestamp ms !! i = Some m'
             /\ get m' "createdAt" = timestamp
             /\ forall k : string, k <> "createdAt"%string -> get m' k = get m k)
  /\ (truthy timestamp = false
      \/ (exists first, head ms = Some first
            /\ truthy (get first "createdAt") = true) ->
      stampCreatedAt timestamp ms = ms).
Proof.
  intros Hint Httn Hprofile Hbt Hms. split; [| split].
  - unfold decodeBuffer. rewrite Hint. cbn. rewrite Httn, Hprofile.
    rewrite Hbt. cbn. now rewrite Hms.
  - intros Hts Hfirst. rewrite stampCreatedAt_stamps by assumption.
    split; [apply length_map |].
    intros i m Hi. exists (set m "createdAt" timestamp).
    rewrite list_lookup_fmap, Hi. split; [reflexivity |].
    split; [apply get_set_eq |].
    intros k Hk. apply get_set_ne. congruence.
  - apply stampCreatedAt_skips.
Qed.

Lemma decodeBuffer_timestamp_witness :
  decodeBuffer exampleProfile exampleProfile exampleProfile Ok
    [7; 1] exampleBox (VStr "2017-05-03T17:20:09Z")
  = Ok (stampCreatedAt (VStr "2017-05-03T17:20:09Z") [measurement "x" 263])
  /\ length (stampCreatedAt (VStr "2017-05-03T17:20:09Z") [measurement "x" 263])
     = 1%nat
  /\ forall (i : nat) (m : Measurement),
       [measurement "x" 263] !! i = Some m ->
       exists m',
         stampCreatedAt (VStr "2017-05-03T17:20:09Z") [measurement "x" 263] !! i
         = Some m'
         /\ get m' "createdAt" = VStr "2017-05-03T17:20:09Z"
         /\ forall k : string, k <> "createdAt"%string -> get m' k = get m k.
Proof.
  assert (Hms : completion (bufferToMeasurements [7; 1] plainTransformer)
                = Ok [measurement "x" 263]) by (vm_compute; reflexivity).
  destruct (decodeBuffer_timestamp exampleProfile exampleProfile exampleProfile Ok
              [7; 1] exampleBox (VStr "2017-05-03T17:20:09Z")
              {| Box.ttn := Some {| Box.profile := "debug" |} |}
              {| Box.profile := "debug" |} exampleProfile plainTransformer
              [measurement "x" 263] eq_refl eq_refl eq_refl eq_refl Hms)
    as (Hdecode & Hstamp & _).
  split; [exact Hdecode |].
  apply Hstamp; [reflexivity |].
  intros first [= <-]. reflexivity.
Defined.

(** ** SensorMatcher *)

Section SensorMatcherFacts.
Context `{StringOps}.

Lemma truthy_toString (v : Val) :
  truthy v = true -> exists s, toString v = Ok s.
Proof. destruct v; cbn; intros Hv; try discriminate; eauto. Qed.

(** The test of the source decides [matchesAlias]. *)
Lemma matchesAlias_test sensorProp aliases (sensor : Obj) :
  matchesAlias sensorProp aliases sensor
  <-> truthy (get sensor sensorProp) = true
      /\ exists s, toString (get sensor sensorProp) = Ok s
           /\ bool_decide (toLowerCase s ∈ map toLowerCase aliases) = true.
Proof.
  unfold matchesAlias. split.
  - intros (s & a & Ht & Hs & Ha & Heq). split; [exact Ht |].
    exists s. split; [exact Hs |].
    apply bool_decide_eq_true_2. rewrite Heq.
    apply list_elem_of_fmap. eauto.
  - intros (Ht & s & Hs & Hin).
    apply bool_decide_eq_true_1 in Hin.
    apply list_elem_of_fmap in Hin. destruct Hin as (a & Heq & Ha).
    exists s, a. eauto.
Qed.

Lemma scanSensors_skip sensorProp aliases (sensor : Obj) (rest : list Obj) :
  ¬ matchesAlias sensorProp aliases sensor ->
  scanSensors sensorProp (map toLowerCase aliases) (sensor :: rest)
  = scanSensors sensorProp (map toLowerCase aliases) rest.
Proof.
  intros Hno. cbn [scanSensors].
  destruct (truthy (get sensor sensorProp)) eqn:Ht; [| reflexivity].
  destruct (truthy_toString _ Ht) as (s & Hs). rewrite Hs. cbn.
  destruct (bool_decide (toLowerCase s ∈ map toLowerCase aliases)) eqn:Hin;
    [| reflexivity].
  exfalso. apply Hno. apply matchesAlias_test. eauto.
Qed.

Lemma scanSensors_hit sensorProp aliases (sensor : Obj) (rest : list Obj) :
  matchesAlias sensorProp aliases sensor ->
  scanSensors sensorProp (map toLowerCase aliases) (sensor :: rest)
  = id ← toString (get sensor "_id"); Ok (Some id).
Proof.
  intros Hm. apply matchesAlias_test in Hm. destruct Hm as (Ht & s & Hs & Hin).
  cbn [scanSensors]. rewrite Ht, Hs. cbn. now rewrite Hin.
Qed.

Lemma scanSensors_none sensorProp aliases (sensors : list Obj) :
  Forall (fun sensor => ¬ matchesAlias sensorProp aliases sensor) sensors ->
  scanSensors sensorProp (map toLowerCase aliases) sensors = Ok None.
Proof.
  induction 1 as [| sensor rest Hno _ IH]; [reflexivity |].
  now rewrite scanSensors_skip.
Qed.

Lemma scanSensors_first sensorProp aliases (before after : list Obj)
    (sensor : Obj) (id : string) :
  Forall (fun sensor => ¬ matchesAlias sensorProp aliases sensor) before ->
  matchesAlias sensorProp aliases sensor ->
  toString (get sensor "_id") = Ok id ->
  scanSensors sensorProp (map toLowerCase aliases) (before ++ sensor :: after)
  = Ok (Some id).
Proof.
  intros Hbefore Hm Hid.
  induction Hbefore as [| s rest Hno _ IH]; cbn [app].
  - rewrite scanSensors_hit by exact Hm. now rewrite Hid.
  - now rewrite scanSensors_skip.
Qed.

Lemma scanSensors_total sensorProp aliases (sensors : list Obj) :
  Forall hasId sensors ->
  exists found, scanSensors sensorProp aliases sensors = Ok found.
Proof.
  induction 1 as [| sensor rest (id & Hid) _ IH]; cbn [scanSensors]; [eauto |].
  destruct (truthy (get sensor sensorProp)) eqn:Ht; cbn; [| exact IH].
  destruct (truthy_toString _ Ht) as (s & Hs). rewrite Hs. cbn.
  destruct (bool_decide _); [| exact IH].
  rewrite Hid. cbn. eauto.
Qed.

Lemma scanProps_none props (sensors : list Obj) :
  Forall (matchesNone props) sensors ->
  scanProps props sensors = Ok None.
Proof.
  induction props as [| [sensorProp aliases] rest IH]; intros Hnone;
    [reflexivity |].
  cbn [scanProps]. rewrite scanSensors_none.
  - cbn. apply IH. eapply Forall_impl; [exact Hnone |].
    intros sensor Hs p a Hin. apply Hs. now right.
  - eapply Forall_impl; [exact Hnone |].
    intros sensor Hs. apply Hs. now left.
Qed.

Lemma scanProps_first earlier later sensorProp aliases
    (before after : list Obj) (sensor : Obj) (id : string) :
  Forall (matchesNone earlier) (before ++ sensor :: after) ->
  Forall (fun sensor => ¬ matchesAlias sensorProp aliases sensor) before ->
  matchesAlias sensorProp aliases sensor ->
  toString (get sensor "_id") = Ok id ->
  scanProps (earlier ++ (sensorProp, aliases) :: later)
    (before ++ sensor :: after)
  = Ok (Some id).
Proof.
  intros Hearlier Hbefore Hm Hid.
  induction earlier as [| [p a] earlier IH]; cbn [app scanProps].
  - now rewrite (scanSensors_first _ _ _ _ _ id).
  - rewrite scanSensors_none.
    + cbn. apply IH. eapply Forall_impl; [exact Hearlier |].
      intros s Hs p' a' Hin. apply Hs. now right.
    + eapply Forall_impl; [exact Hearlier |].
      intros s Hs. apply Hs. now left.
Qed.

Lemma scanProps_total props (sensors : list Obj) :
  Forall hasId sensors ->
  exists found, scanProps props sensors = Ok found.
Proof.
  intros Hids. induction props as [| [sensorProp aliases] rest IH];
    cbn [scanProps]; [eauto |].
  destruct (scanSensors_total sensorProp (map toLowerCase aliases) sensors Hids)
    as (found & ->).
  cbn. destruct found; eauto.
Qed.

(** The loop over the roles: each role of the matchings gets what the
    scan of its own attributes over all the sensors returns; the other
    properties of [sensorMap] stay. *)
Lemma findSensorIds_from_lookup (sensors : list Obj) (matchings : Matchings) :
  forall sensorMap : gmap string string,
  Forall hasId sensors ->
  exists m,
    findSensorIds_from sensorMap sensors matchings = Ok m
    /\ (forall role, role ∉ matchings.*1 -> m !! role = sensorMap !! role)
    /\ (NoDup matchings.*1 ->
        forall role props found,
          (role, props) ∈ matchings ->
          scanProps props sensors = Ok found ->
          m !! role = recorded found (sensorMap !! role)).
Proof.
  intros sensorMap Hids. revert sensorMap.
  induction matchings as [| [phenomenon props] rest IH]; intros sensorMap.
  - exists sensorMap. split; [reflexivity |]. split; [reflexivity |].
    intros _ role props found Hin. now apply elem_of_nil in Hin.
  - cbn [findSensorIds_from].
    destruct (scanProps_total props sensors Hids) as (found0 & Hfound0).
    rewrite Hfound0. cbn.
    set (sensorMap' := match found0 with
                       | Some id => <[phenomenon := id]> sensorMap
                       | None => sensorMap
                       end).
    assert (Hother : forall role, role <> phenomenon ->
              sensorMap' !! role = sensorMap !! role).
    { intros role Hne. subst sensorMap'. destruct found0; [| reflexivity].
      now rewrite lookup_insert_ne. }
    assert (Hself : sensorMap' !! phenomenon
                    = recorded found0 (sensorMap !! phenomenon)).
    { subst sensorMap'. destruct found0; [| reflexivity].
      cbn. now rewrite lookup_insert_eq. }
    destruct (IH sensorMap') as (m & Hm & Hout & Hin).
    exists m. split.
    { subst sensorMap'. destruct found0; exact Hm. }
    split.
    + intros role Hrole. cbn in Hrole.
      apply not_elem_of_cons in Hrole. destruct Hrole as [Hne Hrest].
      rewrite Hout by exact Hrest. now apply Hother.
    + intros Hnodup role props' found Hmem Hscan. cbn in Hnodup.
      apply NoDup_cons in Hnodup. destruct Hnodup as [Hfresh Hnodup].
      apply elem_of_cons in Hmem. destruct Hmem as [[= -> ->] | Hmem].
      * rewrite Hout by exact Hfresh. rewrite Hself. congruence.
      * rewrite (Hin Hnodup role props' found Hmem Hscan).
        rewrite Hother; [reflexivity |].
        intros ->. apply Hfresh.
        apply list_elem_of_fmap. exists (phenomenon, props'). eauto.
Qed.

End SensorMatcherFacts.

Lemma findSensorIds_from_unmatched `{StringOps} (sensors : list Obj)
    (matchings : Matchings) (role : string) :
  forall sensorMap : gmap string string,
  Forall hasId sensors ->
  (forall props, (role, props) ∈ matchings -> Forall (matchesNone props) sensors) ->
  exists m, findSensorIds_from sensorMap sensors matchings = Ok m
            /\ m !! role = sensorMap !! role.
Proof.
  intros sensorMap Hids. revert sensorMap.
  induction matchings as [| [phenomenon props] rest IH]; intros sensorMap Hnone.
  - exists sensorMap. now split.
  - cbn [findSensorIds_from].
    assert (Hrest : forall props', (role, props') ∈ rest ->
                      Forall (matchesNone props') sensors)
      by (intros props' Hin; apply Hnone; now right).
    destruct (scanProps_total props sensors Hids) as (found & Hfound).
    rewrite Hfound. cbn. destruct found as [id |].
    + destruct (IH (<[phenomenon := id]> sensorMap) Hrest) as (m & Hm & Hrole).
      exists m. split; [exact Hm |]. rewrite Hrole.
      apply lookup_insert_ne. intros ->.
      rewrite scanProps_none in Hfound by (apply Hnone; now left).
      discriminate.
    + now apply IH.
Qed.

(** C5. findSensorIds resolves a role by first match: with the role's
    attributes tried in the order of the matchings and the sensors scanned
    in list order, the role gets the identifier of the first sensor that
    matches the first attribute any sensor matches, whatever attributes
    and sensors come later; a match is equality up to letter case with one
    of the attribute's aliases. *)
Theorem findSensorIds_first_match_wins `{StringOps}
    (sensors : list Obj) (matchings : Matchings) (role : string)
    (earlier later : list (string * list string))
    (sensorProp : string) (aliases : list string)
    (before after : list Obj) (sensor : Obj) (id : string) :
  NoDup matchings.*1 ->
  Forall hasId sensors ->
  (role, earlier ++ (sensorProp, aliases) :: later) ∈ matchings ->
  sensors = before ++ sensor :: after ->
  Forall (matchesNone earlier) sensors ->
  Forall (fun s => ¬ matchesAlias sensorProp aliases s) before ->
  matchesAlias sensorProp aliases sensor ->
  toString (get sensor "_id") = Ok id ->
  exists m, findSensorIds sensors matchings = Ok m /\ m !! role = Some id.
Proof.
  intros Hnodup Hids Hrole -> Hearlier Hbefore Hmatch Hid.
  destruct (findSensorIds_from_lookup (before ++ sensor :: after) matchings ∅ Hids)
    as (m & Hm & _ & Hin).
  exists m. split; [exact Hm |].
  rewrite (Hin Hnodup role _ (Some id) Hrole); [reflexivity |].
  now apply scanProps_first.
Qed.

Lemma findSensorIds_first_match_wins_witness :
  exists m, findSensorIds [hdcSensor; humiditySensor] twoRoleMatchings = Ok m
            /\ m !! "humidity" = Some "a"%string.
Proof.
  apply (findSensorIds_first_match_wins
           [hdcSensor; humiditySensor] twoRoleMatchings "humidity"
           [] [("type", ["HDC1008"])]%string
           "title" ["rel. luftfeuchte"; "Humidity"]%string
           [hdcSensor] [] humiditySensor "a").
  - compute_done.
  - repeat constructor; eexists; reflexivity.
  - compute_done.
  - reflexivity.
  - repeat constructor; intros p a Hin; now apply elem_of_nil in Hin.
  - repeat constructor. intros Hm. apply matchesAlias_test in Hm.
    destruct Hm as (_ & s & Hs & Hin).
    vm_compute in Hs. injection Hs as <-. vm_compute in Hin. discriminate Hin.
  - exists "Humidity"%string, "Humidity"%string.
    repeat split; [compute_done].
  - reflexivity.
Defined.

(** C6 (as amended). For sensors that carry an [_id], a role for which no
    attribute of any sensor matches is absent from the mapping
    findSensorIds returns, and no error is raised; given the sensors
    [{_id:'a', title:'Humidity'}, {_id:'b', title:'Pressure'}] and the
    matchings [{humidity:{title:['humidity']}, temperature:{title:['temp']}}]
    findSensorIds returns exactly [{humidity:'a'}]. *)
Theorem findSensorIds_unmatched_role_absent `{StringOps}
    (sensors : list Obj) (matchings : Matchings) (role : string) :
  Forall hasId sensors ->
  (forall props, (role, props) ∈ matchings -> Forall (matchesNone props) sensors) ->
  (exists m, findSensorIds sensors matchings = Ok m /\ m !! role = None)
  /\ @findSensorIds ascii_StringOps [humiditySensor; pressureSensor] exampleMatchings
     = Ok {[ "humidity" := "a" ]}%string.
Proof.
  intros Hids Hnone. split.
  - destruct (findSensorIds_from_unmatched sensors matchings role ∅ Hids Hnone)
      as (m & Hm & Hrole).
    exists m. split; [exact Hm |]. now rewrite Hrole.
  - vm_compute. reflexivity.
Qed.

Lemma findSensorIds_unmatched_role_absent_witness :
  (exists m, findSensorIds [humiditySensor; pressureSensor] exampleMatchings = Ok m
             /\ m !! "temperature" = None)
  /\ findSensorIds [humiditySensor; pressureSensor] exampleMatchings
     = Ok {[ "humidity" := "a" ]}%string.
Proof.
  apply (findSensorIds_unmatched_role_absent
           [humiditySensor; pressureSensor] exampleMatchings "temperature").
  - repeat constructor; eexists; reflexivity.
  - intros props Hin.
    assert (Hprops : props = [("title", ["temp"])]%string).
    { apply elem_of_cons in Hin. destruct Hin as [[=] | Hin].
      apply elem_of_cons in Hin. destruct Hin as [[= ->] | Hin]; [reflexivity |].
      now apply elem_of_nil in Hin. }
    subst props.
    repeat constructor; intros p a Hp Hm;
      apply list_elem_of_singleton in Hp; injection Hp as -> ->;
      apply matchesAlias_test in Hm; destruct Hm as (_ & s & Hs & Hin');
      vm_compute in Hs; injection Hs as <-; vm_compute in Hin'; discriminate Hin'.
Defined.

(** With the identifier in [id], as the specification writes the sensors,
    the first match reads [sensor._id], which is undefined, and
    [toString] throws. *)
Lemma findSensorIds_id_property_throws :
  findSensorIds [humiditySensor_id; pressureSensor_id] exampleMatchings
  = Throw (TypeError "Cannot read property 'toString' of undefined")
  /\ findSensorIds [humiditySensor_id; pressureSensor_id] exampleMatchings
     <> Ok {[ "humidity" := "a" ]}%string.
Proof.
  assert (Hthrow : findSensorIds [humiditySensor_id; pressureSensor_id] exampleMatchings
    = Throw (TypeError "Cannot read property 'toString' of undefined"))
    by (vm_compute; reflexivity).
  split; [exact Hthrow |]. rewrite Hthrow. discriminate.
Qed.

(** C10. findSensorIds resolves each role on its own over the full sensor
    list: what a role gets is what the scan of its attributes over all the
    sensors returns, whatever the other roles matched, so that two roles
    can get the same sensor; a sensor whose value for the attribute is
    falsy is passed over. *)
Theorem findSensorIds_roles_independent `{StringOps}
    (sensors : list Obj) (matchings : Matchings) :
  NoDup matchings.*1 ->
  Forall hasId sensors ->
  (exists m, findSensorIds sensors matchings = Ok m
     /\ forall role props, (role, props) ∈ matchings ->
          scanProps props sensors = Ok (m !! role))
  /\ (forall sensorProp aliases (sensor : Obj) (rest : list Obj),
        truthy (get sensor sensorProp) = false ->
        scanSensors sensorProp aliases (sensor :: rest)
        = scanSensors sensorProp aliases rest)
  /\ @findSensorIds ascii_StringOps [hdcSensor] twoRoleMatchings
     = Ok {[ "humidity" := "c"; "temperature" := "c" ]}%string.
Proof.
  intros Hnodup Hids. split; [| split].
  - destruct (findSensorIds_from_lookup sensors matchings ∅ Hids)
      as (m & Hm & _ & Hin).
    exists m. split; [exact Hm |].
    intros role props Hrole.
    destruct (scanProps_total props sensors Hids) as (found & Hfound).
    rewrite Hfound. f_equal.
    rewrite (Hin Hnodup role props found Hrole Hfound).
    rewrite lookup_empty. now destruct found.
  - intros sensorProp aliases sensor rest Hfalsy.
    cbn [scanSensors]. now rewrite Hfalsy.
  - vm_compute. reflexivity.
Qed.

Lemma findSensorIds_roles_independent_witness :
  exists m, findSensorIds [hdcSensor; humiditySensor] twoRoleMatchings = Ok m
    /\ forall role props, (role, props) ∈ twoRoleMatchings ->
         scanProps props [hdcSensor; humiditySensor] = Ok (m !! role).
Proof.
  apply (findSensorIds_roles_independent [hdcSensor; humiditySensor] twoRoleMatchings).
  - compute_done.
  - repeat constructor; eexists; reflexivity.
Defined.
(** ** More on the 32-bit operations *)

Lemma high_bits_clear (a n : Z) :
  0 <= a < 2 ^ 31 -> 31 <= n -> Z.testbit a n = false.
Proof.
  intros Ha Hn. destruct (Z.eq_dec a 0) as [-> | Hne]; [apply Z.bits_0 |].
  apply Z.bits_above_log2; [lia |].
  apply Z.lt_le_trans with 31; [| exact Hn].
  apply Z.log2_lt_pow2; lia.
Qed.

Lemma lt_of_high_bits_clear (a : Z) :
  0 <= a -> (forall n, 31 <= n -> Z.testbit a n = false) -> a < 2 ^ 31.
Proof.
  intros Ha Hbits.
  assert (Heq : a = a mod 2 ^ 31).
  { apply Z.bits_inj'. intros n Hn.
    destruct (Z.lt_ge_cases n 31) as [Hlt | Hge].
    - now rewrite Z.mod_pow2_bits_low.
    - rewrite Z.mod_pow2_bits_high by lia. now apply Hbits. }
  rewrite Heq. apply Z.mod_pos_bound. lia.
Qed.

Lemma lor_inRange (a b : Z) :
  Int32.inRange a -> Int32.inRange b -> Int32.inRange (Z.lor a b).
Proof.
  unfold Int32.inRange. intros Ha Hb.
  destruct (Z.lt_ge_cases (Z.lor a b) 0) as [Hneg | Hpos].
  - split; [| lia].
    assert (Hn : 0 <= Z.lnot (Z.lor a b)) by (unfold Z.lnot; lia).
    assert (Hlt : Z.lnot (Z.lor a b) < 2 ^ 31).
    { apply lt_of_high_bits_clear; [exact Hn |].
      intros n Hge. rewrite Z.lnot_lor, Z.land_spec.
      apply Z.lor_neg in Hneg. destruct Hneg as [Hneg | Hneg].
      - rewrite (high_bits_clear (Z.lnot a)) by (unfold Z.lnot; lia). reflexivity.
      - rewrite (high_bits_clear (Z.lnot b)) by (unfold Z.lnot; lia).
        apply andb_false_r. }
    unfold Z.lnot in Hlt. lia.
  - apply Z.lor_nonneg in Hpos. destruct Hpos as [Ha0 Hb0].
    split; [apply Z.le_trans with 0; [lia | now apply Z.lor_nonneg] |].
    apply lt_of_high_bits_clear; [now apply Z.lor_nonneg |].
    intros n Hge. rewrite Z.lor_spec.
    rewrite (high_bits_clear a), (high_bits_clear b) by lia. reflexivity.
Qed.

Lemma or_inRange (a b : Z) : Int32.inRange (Int32.or a b).
Proof. unfold Int32.or. apply lor_inRange; apply toInt32_range. Qed.

Lemma shl_inRange (a n : Z) : Int32.inRange (Int32.shl a n).
Proof. unfold Int32.shl. apply toInt32_range. Qed.

Lemma bytesToInt_from_inRange (bytes : list Z) : forall (i v : Z),
  Int32.inRange v -> Int32.inRange (bytesToInt_from i bytes v).
Proof.
  induction bytes as [| b rest IH]; intros i v Hv; cbn [bytesToInt_from].
  - exact Hv.
  - apply IH, or_inRange.
Qed.

Lemma shl_period (a n : Z) : Int32.shl a (n + 32) = Int32.shl a n.
Proof.
  unfold Int32.shl. f_equal. f_equal.
  change 31 with (Z.ones 5). rewrite !Z.land_ones by lia.
  change (2 ^ 5) with 32.
  replace (n + 32) with (n + 1 * 32) by lia. apply Z.mod_add. lia.
Qed.

Lemma bytesToInt_from_period (bytes : list Z) : forall (i v : Z),
  bytesToInt_from (i + 4) bytes v = bytesToInt_from i bytes v.
Proof.
  induction bytes as [| b rest IH]; intros i v; cbn [bytesToInt_from];
    [reflexivity |].
  replace ((i + 4) * 8) with (i * 8 + 32) by lia. rewrite shl_period.
  replace (i + 4 + 1) with (i + 1 + 4) by lia. apply IH.
Qed.

Lemma bytesToInt_from_or (bytes : list Z) : forall (i v : Z),
  Int32.inRange v ->
  bytesToInt_from i bytes v = Z.lor v (bytesToInt_from i bytes 0).
Proof.
  induction bytes as [| b rest IH]; intros i v Hv; cbn [bytesToInt_from].
  - now rewrite Z.lor_0_r.
  - rewrite (IH (i + 1) (Int32.or v _)) by apply or_inRange.
    rewrite (IH (i + 1) (Int32.or 0 _)) by apply or_inRange.
    rewrite !or_id by (assumption || apply shl_inRange || (unfold Int32.inRange; lia)).
    rewrite Z.lor_0_l. now rewrite Z.lor_assoc.
Qed.

Lemma bytesToInt_from_app (bs cs : list Z) : forall (i v : Z),
  bytesToInt_from i (bs ++ cs) v
  = bytesToInt_from (i + Z.of_nat (length bs)) cs (bytesToInt_from i bs v).
Proof.
  induction bs as [| b bs IH]; intros i v; cbn [app bytesToInt_from length].
  - now rewrite Z.add_0_r.
  - rewrite IH. f_equal. lia.
Qed.

Lemma isByte_stdpp (bytes : list Z) :
  Forall isByte bytes <-> Forall (fun b => 0 <= b < 2 ^ 8) bytes.
Proof. reflexivity. Qed.

Lemma littleEndianSum_from_stdpp (bytes : list Z) : forall i,
  0 <= i -> Forall isByte bytes ->
  littleEndianSum_from i bytes = 2 ^ (8 * i) * little_endian_to_Z 8 bytes.
Proof.
  induction bytes as [| b rest IH]; intros i Hi Hb;
    cbn [littleEndianSum_from little_endian_to_Z]; [lia |].
  apply Forall_cons in Hb. destruct Hb as [Hb Hrest].
  rewrite Z.shiftl_mul_pow2 by lia.
  rewrite lor_low_high by (unfold isByte in Hb; lia).
  rewrite IH by (assumption || lia).
  replace (8 * (i + 1)) with (8 * i + 8) by lia.
  rewrite Z.pow_add_r by lia. ring.
Qed.

Lemma littleEndianSum_stdpp (bytes : list Z) :
  Forall isByte bytes -> littleEndianSum bytes = little_endian_to_Z 8 bytes.
Proof.
  intros Hb. unfold littleEndianSum.
  rewrite littleEndianSum_from_stdpp by (assumption || lia). cbn. lia.
Qed.

Lemma littleEndianSum_bound (bytes : list Z) :
  Forall isByte bytes ->
  0 <= littleEndianSum bytes < 2 ^ (8 * Z.of_nat (length bytes)).
Proof.
  intros Hb. rewrite littleEndianSum_stdpp by exact Hb.
  rewrite (Z.mul_comm 8). apply little_endian_to_Z_bound; [lia | exact Hb].
Qed.

Lemma toInt32_inj (a b : Z) :
  0 <= a < 2 ^ 32 -> 0 <= b < 2 ^ 32 ->
  Int32.toInt32 a = Int32.toInt32 b -> a = b.
Proof.
  intros Ha Hb Heq.
  destruct (Z.lt_ge_cases a (2 ^ 31)), (Z.lt_ge_cases b (2 ^ 31)).
  - rewrite !toInt32_id in Heq by (unfold Int32.inRange; lia). exact Heq.
  - rewrite toInt32_id, toInt32_wrap in Heq by (unfold Int32.inRange; lia). lia.
  - rewrite toInt32_wrap, toInt32_id in Heq by (unfold Int32.inRange; lia). lia.
  - rewrite !toInt32_wrap in Heq by lia. lia.
Qed.

(** X1. Whatever its input, bytesToInt returns a signed 32-bit value. *)
Theorem bytesToInt_inRange (bytes : list Z) :
  - 2 ^ 31 <= bytesToInt bytes < 2 ^ 31.
Proof.
  apply (bytesToInt_from_inRange bytes 0 0). unfold Int32.inRange. lia.
Qed.

(** X2. A sequence longer than four bytes is not rejected: the shift
    count wraps after 32 bits, so the bytes from the fifth on are or-ed
    onto the value of the first four as if they started at index 0. *)
Theorem bytesToInt_wraps_after_four (bs cs : list Z) :
  length bs = 4%nat ->
  bytesToInt (bs ++ cs) = Z.lor (bytesToInt bs) (bytesToInt cs).
Proof.
  intros Hlen. unfold bytesToInt.
  rewrite bytesToInt_from_app, Hlen.
  change (0 + Z.of_nat 4) with (0 + 4). rewrite bytesToInt_from_period.
  apply bytesToInt_from_or.
  apply bytesToInt_from_inRange. unfold Int32.inRange. lia.
Qed.

Lemma bytesToInt_wraps_after_four_witness :
  bytesToInt ([1; 2; 3; 4] ++ [16; 32])
  = Z.lor (bytesToInt [1; 2; 3; 4]) (bytesToInt [16; 32]).
Proof. apply (bytesToInt_wraps_after_four [1; 2; 3; 4] [16; 32]). reflexivity. Defined.

(** X3. Zero bytes appended at the end do not change the value. *)
Theorem bytesToInt_trailing_zeros (bytes : list Z) (n : nat) :
  bytesToInt (bytes ++ replicate n 0) = bytesToInt bytes.
Proof.
  unfold bytesToInt. rewrite bytesToInt_from_app.
  generalize (0 + Z.of_nat (length bytes)) as i.
  assert (Hv : Int32.inRange (bytesToInt_from 0 bytes 0))
    by (apply bytesToInt_from_inRange; unfold Int32.inRange; lia).
  revert Hv. generalize (bytesToInt_from 0 bytes 0) as v.
  induction n as [| n IH]; intros v Hv i; cbn [replicate bytesToInt_from];
    [reflexivity |].
  assert (Hz : Int32.shl 0 (i * 8) = 0).
  { unfold Int32.shl. change (Int32.toInt32 0) with 0.
    now rewrite Z.shiftl_0_l. }
  rewrite Hz, or_id by (assumption || (unfold Int32.inRange; lia)).
  rewrite Z.lor_0_r. now apply IH.
Qed.

(** X4. On up to three bytes bytesToInt is the unsigned little-endian
    number: it lies in [0, 2^(8·length)). *)
Theorem bytesToInt_bound (bytes : list Z) :
  Forall isByte bytes -> (length bytes <= 3)%nat ->
  0 <= bytesToInt bytes < 2 ^ (8 * Z.of_nat (length bytes)).
Proof.
  intros Hb Hlen.
  pose proof (littleEndianSum_bound bytes Hb) as Hsum.
  assert (Hp : 2 ^ (8 * Z.of_nat (length bytes)) <= 2 ^ 24)
    by (apply Z.pow_le_mono_r; lia).
  rewrite bytesToInt_toInt32 by (assumption || lia).
  rewrite toInt32_id by (unfold Int32.inRange; lia). exact Hsum.
Qed.

Lemma bytesToInt_bound_witness :
  0 <= bytesToInt [255; 255] < 2 ^ (8 * Z.of_nat (length [255; 255])).
Proof.
  apply (bytesToInt_bound [255; 255]).
  - repeat constructor; unfold isByte; lia.
  - cbn. lia.
Defined.

(** X5. bytesToInt inverts the little-endian encoding: the [m] bytes of a
    number below 2^(8·m), for [m] up to 4, decode to that number when
    it is below 2^31, and to the number minus 2^32 otherwise. *)
Theorem bytesToInt_of_little_endian (m z : Z) :
  0 <= m <= 4 -> 0 <= z < 2 ^ (8 * m) ->
  bytesToInt (Z_to_little_endian m 8 z)
  = if z <? 2 ^ 31 then z else z - 2 ^ 32.
Proof.
  intros Hm Hz.
  assert (Hbytes : Forall isByte (Z_to_little_endian m 8 z))
    by (apply isByte_stdpp, Z_to_little_endian_bound; lia).
  assert (Hlen : Z.of_nat (length (Z_to_little_endian m 8 z)) = m)
    by (apply length_Z_to_little_endian; lia).
  rewrite bytesToInt_toInt32 by (assumption || lia).
  rewrite littleEndianSum_stdpp by exact Hbytes.
  rewrite little_endian_to_Z_to_little_endian by lia.
  rewrite (Z.mul_comm m 8), Z.mod_small by exact Hz.
  assert (Hp : 2 ^ (8 * m) <= 2 ^ 32) by (apply Z.pow_le_mono_r; lia).
  destruct (Z.ltb_spec z (2 ^ 31)).
  - apply toInt32_id. unfold Int32.inRange. lia.
  - apply toInt32_wrap. lia.
Qed.

Lemma bytesToInt_of_little_endian_witness :
  bytesToInt (Z_to_little_endian 3 8 70000)
  = if 70000 <? 2 ^ 31 then 70000 else 70000 - 2 ^ 32.
Proof. apply (bytesToInt_of_little_endian 3 70000); cbn; lia. Defined.

(** X6. On byte sequences of one length up to 4, bytesToInt is
    injective: different payloads never decode to the same number. *)
Theorem bytesToInt_injective (bs cs : list Z) :
  Forall isByte bs -> Forall isByte cs ->
  length bs = length cs -> (length bs <= 4)%nat ->
  bytesToInt bs = bytesToInt cs -> bs = cs.
Proof.
  intros Hbs Hcs Hlen H4 Heq.
  rewrite !bytesToInt_toInt32 in Heq by (assumption || lia).
  pose proof (littleEndianSum_bound bs Hbs) as Hb.
  pose proof (littleEndianSum_bound cs Hcs) as Hc.
  assert (Hp : 2 ^ (8 * Z.of_nat (length bs)) <= 2 ^ 32)
    by (apply Z.pow_le_mono_r; lia).
  rewrite <- Hlen in Hc.
  apply toInt32_inj in Heq; [| lia | lia].
  rewrite !littleEndianSum_stdpp in Heq by assumption.
  rewrite <- (Z_to_little_endian_to_Z (Z.of_nat (length bs)) 8 bs)
    by (reflexivity || lia || now apply isByte_stdpp).
  rewrite <- (Z_to_little_endian_to_Z (Z.of_nat (length bs)) 8 cs)
    by (now rewrite Hlen || lia || now apply isByte_stdpp).
  now rewrite Heq.
Qed.

Lemma bytesToInt_injective_witness :
  (length [1; 2] <= 4)%nat /\ bytesToInt [1; 2] = bytesToInt [1; 2]
  /\ ([1; 2] : list Z) = [1; 2].
Proof.
  split; [cbn; lia |]. split; [reflexivity |].
  apply (bytesToInt_injective [1; 2] [1; 2]).
  - repeat constructor; unfold isByte; lia.
  - repeat constructor; unfold isByte; lia.
  - reflexivity.
  - cbn. lia.
  - reflexivity.
Defined.

(** ** More on the SensorMatcher *)

Section SensorMatcherMore.
Context `{StringOps}.

Lemma scanSensors_found sensorProp aliases (sensors : list Obj) (id : string) :
  scanSensors sensorProp (map toLowerCase aliases) sensors = Ok (Some id) ->
  exists sensor, sensor ∈ sensors
    /\ matchesAlias sensorProp aliases sensor
    /\ toString (get sensor "_id") = Ok id.
Proof.
  induction sensors as [| sensor rest IH]; cbn [scanSensors]; [discriminate |].
  destruct (truthy (get sensor sensorProp)) eqn:Ht; cbn [negb].
  - destruct (truthy_toString _ Ht) as (s & Hs). rewrite Hs. cbn.
    destruct (bool_decide (toLowerCase s ∈ map toLowerCase aliases)) eqn:Hin.
    + destruct (toString (get sensor "_id")) as [id' |] eqn:Hid; cbn;
        [| discriminate].
      intros Heq. assert (id' = id) as -> by congruence.
      exists sensor. split; [now left |].
      split; [| exact Hid]. apply matchesAlias_test. eauto.
    + intros Hrest. destruct (IH Hrest) as (sensor' & Hin' & Hrest').
      exists sensor'. split; [now right | exact Hrest'].
  - intros Hrest. destruct (IH Hrest) as (sensor' & Hin' & Hrest').
    exists sensor'. split; [now right | exact Hrest'].
Qed.

Lemma scanSensors_not_found sensorProp aliases (sensors : list Obj) :
  scanSensors sensorProp (map toLowerCase aliases) sensors = Ok None ->
  Forall (fun sensor => ¬ matchesAlias sensorProp aliases sensor) sensors.
Proof.
  induction sensors as [| sensor rest IH]; cbn [scanSensors]; [constructor |].
  destruct (truthy (get sensor sensorProp)) eqn:Ht; cbn [negb].
  - destruct (truthy_toString _ Ht) as (s & Hs). rewrite Hs. cbn.
    destruct (bool_decide (toLowerCase s ∈ map toLowerCase aliases)) eqn:Hin.
    + destruct (toString (get sensor "_id")); cbn; discriminate.
    + intros Hrest. constructor; [| now apply IH].
      intros Hm. apply matchesAlias_test in Hm.
      destruct Hm as (_ & s' & Hs' & Hin').
      rewrite Hs in Hs'. injection Hs' as <-. rewrite Hin in Hin'. discriminate.
  - intros Hrest. constructor; [| now apply IH].
    intros Hm. apply matchesAlias_test in Hm. destruct Hm as (Ht' & _). congruence.
Qed.

Lemma scanProps_found props (sensors : list Obj) (id : string) :
  scanProps props sensors = Ok (Some id) ->
  exists sensorProp aliases sensor,
    (sensorProp, aliases) ∈ props /\ sensor ∈ sensors
    /\ matchesAlias sensorProp aliases sensor
    /\ toString (get sensor "_id") = Ok id.
Proof.
  induction props as [| [sensorProp aliases] rest IH]; cbn [scanProps];
    [discriminate |].
  destruct (scanSensors sensorProp (map toLowerCase aliases) sensors)
    as [[id' |] |] eqn:Hscan; cbn; [| | discriminate].
  - intros Heq. assert (id' = id) as -> by congruence.
    destruct (scanSensors_found _ _ _ _ Hscan) as (sensor & Hin & Hm & Hid).
    exists sensorProp, aliases, sensor. split; [now left | auto].
  - intros Hrest.
    destruct (IH Hrest) as (p & a & sensor & Hp & Hin & Hm & Hid).
    exists p, a, sensor. split; [now right | auto].
Qed.

Lemma scanProps_not_found props (sensors : list Obj) :
  scanProps props sensors = Ok None -> Forall (matchesNone props) sensors.
Proof.
  induction props as [| [sensorProp aliases] rest IH]; cbn [scanProps].
  - intros _. apply Forall_forall. intros sensor _ p a Hin.
    now apply elem_of_nil in Hin.
  - destruct (scanSensors sensorProp (map toLowerCase aliases) sensors)
      as [[id' |] |] eqn:Hscan; cbn; [discriminate | | discriminate].
    intros Hrest. specialize (IH Hrest).
    apply scanSensors_not_found in Hscan.
    rewrite Forall_forall in *. intros sensor Hin p a Hp.
    apply elem_of_cons in Hp. destruct Hp as [[= -> ->] | Hp].
    + now apply Hscan.
    + now apply (IH sensor Hin).
Qed.

(** Every entry of the map findSensorIds builds is there before or comes
    from a match. *)
Lemma findSensorIds_from_sound (sensors : list Obj) (matchings : Matchings) :
  forall (sensorMap m : gmap string string) (role id : string),
  findSensorIds_from sensorMap sensors matchings = Ok m ->
  m !! role = Some id ->
  sensorMap !! role = Some id
  \/ exists props sensorProp aliases sensor,
       (role, props) ∈ matchings /\ (sensorProp, aliases) ∈ props
       /\ sensor ∈ sensors
       /\ matchesAlias sensorProp aliases sensor
       /\ toString (get sensor "_id") = Ok id.
Proof.
  induction matchings as [| [phenomenon props] rest IH];
    intros sensorMap m role id; cbn [findSensorIds_from].
  - intros Heq Hrole. assert (sensorMap = m) as -> by congruence. now left.
  - destruct (scanProps props sensors) as [found |] eqn:Hscan; cbn;
      [| discriminate].
    assert (Hlift : forall sensorMap',
      findSensorIds_from sensorMap' sensors rest = Ok m ->
      m !! role = Some id ->
      (sensorMap' !! role = Some id ->
       sensorMap !! role = Some id
       \/ exists props0 sensorProp aliases sensor,
            (role, props0) ∈ (phenomenon, props) :: rest
            /\ (sensorProp, aliases) ∈ props0 /\ sensor ∈ sensors
            /\ matchesAlias sensorProp aliases sensor
            /\ toString (get sensor "_id") = Ok id) ->
      sensorMap !! role = Some id
      \/ exists props0 sensorProp aliases sensor,
           (role, props0) ∈ (phenomenon, props) :: rest
           /\ (sensorProp, aliases) ∈ props0 /\ sensor ∈ sensors
           /\ matchesAlias sensorProp aliases sensor
           /\ toString (get sensor "_id") = Ok id).
    { intros sensorMap' Hm Hrole Hbefore.
      destruct (IH sensorMap' m role id Hm Hrole)
        as [Hold | (props0 & p & a & sensor & Hin & Hrest)].
      - now apply Hbefore.
      - right. exists props0, p, a, sensor. split; [now right | exact Hrest]. }
    destruct found as [id' |]; intros Hm Hrole.
    + apply (Hlift _ Hm Hrole). intros Hlook.
      destruct (decide (phenomenon = role)) as [-> | Hne].
      * rewrite lookup_insert_eq in Hlook. injection Hlook as ->.
        destruct (scanProps_found _ _ _ Hscan) as (p & a & sensor & Hp & Hrest).
        right. exists props, p, a, sensor. split; [now left | auto].
      * rewrite lookup_insert_ne in Hlook by exact Hne. now left.
    + apply (Hlift _ Hm Hrole). now left.
Qed.

Lemma findSensorIds_from_keeps (sensors : list Obj) (matchings : Matchings)
    (role : string) :
  forall (sensorMap m : gmap string string),
  findSensorIds_from sensorMap sensors matchings = Ok m ->
  is_Some (sensorMap !! role)
  \/ (exists props id, (role, props) ∈ matchings
                       /\ scanProps props sensors = Ok (Some id)) ->
  is_Some (m !! role).
Proof.
  induction matchings as [| [phenomenon props] rest IH];
    intros sensorMap m; cbn [findSensorIds_from].
  - intros Heq [Hsome | (props & id & Hin & _)].
    + now assert (sensorMap = m) as <- by congruence.
    + now apply elem_of_nil in Hin.
  - destruct (scanProps props sensors) as [found |] eqn:Hscan; cbn;
      [| discriminate].
    intros Hm Hcase.
    assert (Hnext : forall sensorMap',
      findSensorIds_from sensorMap' sensors rest = Ok m ->
      (is_Some (sensorMap !! role) -> is_Some (sensorMap' !! role)) ->
      (forall id, found = Some id -> phenomenon = role ->
                  is_Some (sensorMap' !! role)) ->
      is_Some (m !! role)).
    { intros sensorMap' Hm' Hold Hnew. apply (IH sensorMap' m Hm').
      destruct Hcase as [Hsome | (props' & id & Hin & Hfound)]; [left; auto |].
      apply elem_of_cons in Hin. destruct Hin as [Heq | Hin].
      - left. injection Heq as -> ->. apply (Hnew id); [congruence | reflexivity].
      - right. eauto. }
    destruct found as [id' |].
    + apply (Hnext _ Hm).
      * intros Hsome. destruct (decide (phenomenon = role)) as [-> | Hne].
        -- rewrite lookup_insert_eq. eauto.
        -- now rewrite lookup_insert_ne.
      * intros id _ ->. rewrite lookup_insert_eq. eauto.
    + apply (Hnext _ Hm); [auto |]. intros id Hid. discriminate Hid.
Qed.

(** X7. Every entry of the mapping findSensorIds returns is justified:
    its key is a role of the matchings and its value is the [_id] of a
    sensor of the list that matches one of the role's attributes. *)
Theorem findSensorIds_sound (sensors : list Obj) (matchings : Matchings)
    (m : gmap string string) (role id : string) :
  findSensorIds sensors matchings = Ok m ->
  m !! role = Some id ->
  exists props sensorProp aliases sensor,
    (role, props) ∈ matchings /\ (sensorProp, aliases) ∈ props
    /\ sensor ∈ sensors
    /\ matchesAlias sensorProp aliases sensor
    /\ toString (get sensor "_id") = Ok id.
Proof.
  intros Hm Hrole.
  destruct (findSensorIds_from_sound sensors matchings ∅ m role id Hm Hrole)
    as [Hempty | Hmatch]; [| exact Hmatch].
  rewrite lookup_empty in Hempty. discriminate.
Qed.

(** X8. For sensors that carry an [_id], a role is a key of the mapping
    exactly when some sensor matches one of the attributes the matchings
    give for it. *)
Theorem findSensorIds_domain (sensors : list Obj) (matchings : Matchings) :
  Forall hasId sensors ->
  exists m, findSensorIds sensors matchings = Ok m
    /\ forall role,
         is_Some (m !! role)
         <-> exists props sensorProp aliases sensor,
               (role, props) ∈ matchings /\ (sensorProp, aliases) ∈ props
               /\ sensor ∈ sensors
               /\ matchesAlias sensorProp aliases sensor.
Proof.
  intros Hids.
  destruct (findSensorIds_from_lookup sensors matchings ∅ Hids) as (m & Hm & _).
  exists m. split; [exact Hm |]. intros role. split.
  - intros [id Hid].
    destruct (findSensorIds_from_sound sensors matchings ∅ m role id Hm Hid)
      as [Hempty | (props & p & a & sensor & H1 & H2 & H3 & H4 & _)].
    + rewrite lookup_empty in Hempty. discriminate.
    + exists props, p, a, sensor. auto.
  - intros (props & p & a & sensor & Hrole & Hp & Hin & Hmatch).
    apply (findSensorIds_from_keeps sensors matchings role ∅ m Hm).
    right. exists props.
    destruct (scanProps_total props sensors Hids) as ([id |] & Hscan); [eauto |].
    exfalso. apply scanProps_not_found in Hscan.
    rewrite Forall_forall in Hscan. exact (Hscan sensor Hin p a Hp Hmatch).
Qed.

Lemma findSensorIds_from_no_match (sensors : list Obj) (matchings : Matchings) :
  forall sensorMap : gmap string string,
  (forall role props, (role, props) ∈ matchings ->
     Forall (matchesNone props) sensors) ->
  findSensorIds_from sensorMap sensors matchings = Ok sensorMap.
Proof.
  induction matchings as [| [phenomenon props] rest IH]; intros sensorMap Hnone;
    cbn [findSensorIds_from]; [reflexivity |].
  rewrite scanProps_none by (apply (Hnone phenomenon); now left).
  cbn. apply IH. intros role props' Hin. apply (Hnone role). now right.
Qed.

(** X9. When no sensor matches any attribute of any role, findSensorIds
    returns the empty mapping and reads no [_id]: it raises no error even
    for sensors without one. An empty sensor list is such a case. *)
Theorem findSensorIds_nothing_matches (sensors : list Obj) (matchings : Matchings) :
  (forall role props, (role, props) ∈ matchings ->
     Forall (matchesNone props) sensors) ->
  findSensorIds sensors matchings = Ok ∅.
Proof. apply findSensorIds_from_no_match. Qed.

End SensorMatcherMore.

Lemma findSensorIds_sound_witness :
  exists props sensorProp aliases sensor,
    ("humidity"%string, props) ∈ exampleMatchings /\ (sensorProp, aliases) ∈ props
    /\ sensor ∈ [humiditySensor; pressureSensor]
    /\ matchesAlias sensorProp aliases sensor
    /\ toString (get sensor "_id") = Ok "a"%string.
Proof.
  apply (findSensorIds_sound [humiditySensor; pressureSensor] exampleMatchings
           {[ "humidity" := "a" ]}%string "humidity" "a").
  - vm_compute. reflexivity.
  - vm_compute. reflexivity.
Defined.

Lemma findSensorIds_domain_witness :
  exists m, findSensorIds [humiditySensor; pressureSensor] exampleMatchings = Ok m
    /\ forall role,
         is_Some (m !! role)
         <-> exists props sensorProp aliases sensor,
               (role, props) ∈ exampleMatchings /\ (sensorProp, aliases) ∈ props
               /\ sensor ∈ [humiditySensor; pressureSensor]
               /\ matchesAlias sensorProp aliases sensor.
Proof.
  apply (findSensorIds_domain [humiditySensor; pressureSensor] exampleMatchings).
  repeat constructor; eexists; reflexivity.
Defined.

(** Refutes a match on concrete data by running the test of the source. *)
Ltac refute_match :=
  let Hm := fresh "Hm" in
  let Ht := fresh "Ht" in
  let Hs := fresh "Hs" in
  let Hin := fresh "Hin" in
  intros Hm; apply matchesAlias_test in Hm;
  destruct Hm as (Ht & ? & Hs & Hin);
  first [ discriminate Ht
        | vm_compute in Hs; injection Hs as <-; vm_compute in Hin;
          discriminate Hin ].

(** Splits membership in a list that is written out into its cases. *)
Ltac elem_cases H :=
  repeat (apply elem_of_cons in H; destruct H as [H | H]);
  [.. | now apply elem_of_nil in H].

Lemma findSensorIds_nothing_matches_witness :
  findSensorIds [pressureSensor_id] exampleMatchings = Ok ∅.
Proof.
  apply (findSensorIds_nothing_matches [pressureSensor_id] exampleMatchings).
  intros role props Hin. elem_cases Hin; injection Hin as -> ->;
    (constructor; [| constructor]);
    intros p a Hp; elem_cases Hp; injection Hp as -> ->; refute_match.
Defined.

Section SensorMatcherErrors.
Context `{StringOps}.

Lemma toString_throws_TypeError (v : Val) (e : Exn) :
  toString v = Throw e -> exists message, e = TypeError message.
Proof. destruct v; cbn; intros Heq; try discriminate; injection Heq as <-; eauto. Qed.

Lemma scanSensors_throws_TypeError sensorProp aliases (sensors : list Obj) (e : Exn) :
  scanSensors sensorProp aliases sensors = Throw e ->
  exists message, e = TypeError message.
Proof.
  induction sensors as [| sensor rest IH]; cbn [scanSensors]; [discriminate |].
  destruct (truthy (get sensor sensorProp)) eqn:Ht; cbn [negb]; [| exact IH].
  destruct (truthy_toString _ Ht) as (s & Hs). rewrite Hs. cbn.
  destruct (bool_decide _); [| exact IH].
  destruct (toString (get sensor "_id")) eqn:Hid; cbn; [discriminate |].
  intros Heq. injection Heq as <-. now apply toString_throws_TypeError in Hid.
Qed.

Lemma scanProps_throws_TypeError props (sensors : list Obj) (e : Exn) :
  scanProps props sensors = Throw e -> exists message, e = TypeError message.
Proof.
  induction props as [| [sensorProp aliases] rest IH]; cbn [scanProps];
    [discriminate |].
  destruct (scanSensors sensorProp (map toLowerCase aliases) sensors)
    as [[id |] |] eqn:Hscan; cbn; [discriminate | exact IH |].
  intros Heq. injection Heq as <-. now apply scanSensors_throws_TypeError in Hscan.
Qed.

Lemma scanProps_first_throws earlier later sensorProp aliases
    (before after : list Obj) (sensor : Obj) :
  Forall (matchesNone earlier) (before ++ sensor :: after) ->
  Forall (fun sensor => ¬ matchesAlias sensorProp aliases sensor) before ->
  matchesAlias sensorProp aliases sensor ->
  ¬ hasId sensor ->
  exists e, scanProps (earlier ++ (sensorProp, aliases) :: later)
              (before ++ sensor :: after) = Throw e.
Proof.
  intros Hearlier Hbefore Hm Hid.
  induction earlier as [| [p a] earlier IH]; cbn [app scanProps].
  - assert (Hscan : exists e,
      scanSensors sensorProp (map toLowerCase aliases) (before ++ sensor :: after)
      = Throw e).
    { clear Hearlier. induction Hbefore as [| s rest Hno _ IHb]; cbn [app].
      - rewrite scanSensors_hit by exact Hm.
        destruct (toString (get sensor "_id")) as [id |] eqn:Hts; cbn; [| eauto].
        exfalso. apply Hid. now exists id.
      - now rewrite scanSensors_skip. }
    destruct Hscan as (e & ->). cbn. eauto.
  - rewrite scanSensors_none.
    + cbn. apply IH. eapply Forall_impl; [exact Hearlier |].
      intros s Hs p' a' Hin. apply Hs. now right.
    + eapply Forall_impl; [exact Hearlier |].
      intros s Hs. apply Hs. now left.
Qed.

Lemma findSensorIds_from_throws (sensors : list Obj) (matchings : Matchings)
    (role : string) (props : list (string * list string)) (e : Exn) :
  forall sensorMap : gmap string string,
  (role, props) ∈ matchings ->
  scanProps props sensors = Throw e ->
  exists message,
    findSensorIds_from sensorMap sensors matchings = Throw (TypeError message).
Proof.
  intros sensorMap Hin Hthrow. revert sensorMap.
  induction matchings as [| [phenomenon props'] rest IH]; intros sensorMap;
    [now apply elem_of_nil in Hin |].
  cbn [findSensorIds_from].
  destruct (scanProps props' sensors) as [found |] eqn:Hscan; cbn.
  - apply elem_of_cons in Hin. destruct Hin as [Heq | Hin].
    + injection Heq as -> ->. rewrite Hthrow in Hscan. discriminate.
    + destruct found; now apply IH.
  - destruct (scanProps_throws_TypeError _ _ _ Hscan) as (message & ->). eauto.
Qed.

(** X10. When the first match of some role is a sensor without an [_id]
    (undefined or null), findSensorIds throws a TypeError and returns no
    mapping at all, whatever the other roles and sensors are. *)
Theorem findSensorIds_missing_id_throws
    (sensors : list Obj) (matchings : Matchings) (role : string)
    (earlier later : list (string * list string))
    (sensorProp : string) (aliases : list string)
    (before after : list Obj) (sensor : Obj) :
  (role, earlier ++ (sensorProp, aliases) :: later) ∈ matchings ->
  sensors = before ++ sensor :: after ->
  Forall (matchesNone earlier) sensors ->
  Forall (fun s => ¬ matchesAlias sensorProp aliases s) before ->
  matchesAlias sensorProp aliases sensor ->
  ¬ hasId sensor ->
  exists message, findSensorIds sensors matchings = Throw (TypeError message).
Proof.
  intros Hrole -> Hearlier Hbefore Hm Hid.
  destruct (scanProps_first_throws earlier later sensorProp aliases
              before after sensor Hearlier Hbefore Hm Hid) as (e & He).
  exact (findSensorIds_from_throws _ _ _ _ e ∅ Hrole He).
Qed.

Lemma sameAliases_test (aliases1 aliases2 : list string) (x : string) :
  sameAliases aliases1 aliases2 ->
  bool_decide (x ∈ map toLowerCase aliases1)
  = bool_decide (x ∈ map toLowerCase aliases2).
Proof. intros Hsame. apply bool_decide_ext, Hsame. Qed.

Lemma scanSensors_sameAliases sensorProp (aliases1 aliases2 : list string)
    (sensors : list Obj) :
  sameAliases aliases1 aliases2 ->
  scanSensors sensorProp (map toLowerCase aliases1) sensors
  = scanSensors sensorProp (map toLowerCase aliases2) sensors.
Proof.
  intros Hsame. induction sensors as [| sensor rest IH]; cbn [scanSensors];
    [reflexivity |].
  destruct (truthy (get sensor sensorProp)); cbn [negb]; [| exact IH].
  destruct (toString (get sensor sensorProp)) as [s |]; cbn; [| reflexivity].
  rewrite (sameAliases_test _ _ _ Hsame). now rewrite IH.
Qed.

Lemma scanProps_sameAliases (props1 props2 : list (string * list string))
    (sensors : list Obj) :
  Forall2 (fun p1 p2 => p1.1 = p2.1 /\ sameAliases p1.2 p2.2) props1 props2 ->
  scanProps props1 sensors = scanProps props2 sensors.
Proof.
  induction 1 as [| [p1 a1] [p2 a2] rest1 rest2 [Hp Ha] _ IH]; [reflexivity |].
  cbn in Hp, Ha. subst p2. cbn [scanProps].
  rewrite (scanSensors_sameAliases _ _ _ _ Ha). now rewrite IH.
Qed.

(** X11. The letter case, the order and the repetition of the aliases in
    the matchings do not matter: matchings with the same roles and
    attributes whose alias lists agree up to these give the same result,
    errors included. *)
Theorem findSensorIds_sameMatchings (sensors : list Obj)
    (matchings1 matchings2 : Matchings) :
  sameMatchings matchings1 matchings2 ->
  findSensorIds sensors matchings1 = findSensorIds sensors matchings2.
Proof.
  unfold findSensorIds. generalize (∅ : gmap string string) as sensorMap.
  intros sensorMap Hsame. revert sensorMap.
  induction Hsame as [| [r1 props1] [r2 props2] rest1 rest2 [Hr Hp] _ IH];
    intros sensorMap; [reflexivity |].
  cbn in Hr, Hp. subst r2. cbn [findSensorIds_from].
  rewrite (scanProps_sameAliases _ _ _ Hp).
  destruct (scanProps props2 sensors) as [[id |] |]; cbn; [apply IH | apply IH | reflexivity].
Qed.

(** X12. For sensors that carry an [_id], the order in which the
    matchings list their roles does not matter. *)
Theorem findSensorIds_role_order (sensors : list Obj)
    (matchings1 matchings2 : Matchings) :
  Forall hasId sensors ->
  NoDup matchings1.*1 ->
  matchings1 ≡ₚ matchings2 ->
  findSensorIds sensors matchings1 = findSensorIds sensors matchings2.
Proof.
  intros Hids Hnodup Hperm.
  assert (Hnodup2 : NoDup matchings2.*1) by (now rewrite <- Hperm).
  destruct (findSensorIds_from_lookup sensors matchings1 ∅ Hids)
    as (m1 & Hm1 & Hout1 & Hin1).
  destruct (findSensorIds_from_lookup sensors matchings2 ∅ Hids)
    as (m2 & Hm2 & Hout2 & Hin2).
  unfold findSensorIds. rewrite Hm1, Hm2. f_equal.
  apply map_eq. intros role.
  destruct (decide (role ∈ matchings1.*1)) as [Hin | Hout].
  - apply list_elem_of_fmap in Hin. destruct Hin as ([role' props] & -> & Hin).
    cbn. destruct (scanProps_total props sensors Hids) as (found & Hfound).
    rewrite (Hin1 Hnodup role' props found Hin Hfound).
    rewrite (Hin2 Hnodup2 role' props found); [reflexivity | | exact Hfound].
    now rewrite <- Hperm.
  - rewrite Hout1 by exact Hout. rewrite Hout2; [reflexivity |].
    now rewrite <- Hperm.
Qed.

End SensorMatcherErrors.

Lemma findSensorIds_missing_id_throws_witness :
  exists message,
    findSensorIds [pressureSensor; humiditySensor_id] exampleMatchings
    = Throw (TypeError message).
Proof.
  apply (findSensorIds_missing_id_throws
           [pressureSensor; humiditySensor_id] exampleMatchings "humidity"
           [] [] "title" ["humidity"]%string
           [pressureSensor] [] humiditySensor_id).
  - compute_done.
  - reflexivity.
  - repeat constructor; intros p a Hin; now apply elem_of_nil in Hin.
  - repeat constructor. refute_match.
  - exists "Humidity"%string, "humidity"%string. repeat split; [compute_done].
  - intros (id & Hid). vm_compute in Hid. discriminate Hid.
Defined.

Lemma findSensorIds_sameMatchings_witness :
  findSensorIds [humiditySensor; pressureSensor] exampleMatchings
  = findSensorIds [humiditySensor; pressureSensor]
      [ ("humidity", [("title", ["Humidity"; "HUMIDITY"])]);
        ("temperature", [("title", ["TEMP"])]) ]%string.
Proof.
  apply (findSensorIds_sameMatchings [humiditySensor; pressureSensor]).
  repeat (first [ apply Forall2_nil | apply Forall2_cons
                | match goal with |- _ /\ _ => split end ]);
    try reflexivity; intros x; vm_compute (map _ _);
    rewrite !elem_of_cons; tauto.
Defined.

Lemma findSensorIds_role_order_witness :
  findSensorIds [hdcSensor; humiditySensor] twoRoleMatchings
  = findSensorIds [hdcSensor; humiditySensor] (reverse twoRoleMatchings).
Proof.
  apply (findSensorIds_role_order [hdcSensor; humiditySensor]).
  - repeat constructor; eexists; reflexivity.
  - compute_done.
  - apply Permutation_swap.
Defined.

Section SensorMatcherCase.
Context `{StringOps}.

Lemma scanSensors_sameUpToCase sensorProp aliases (sensors1 sensors2 : list Obj) :
  Forall2 sameUpToCase sensors1 sensors2 ->
  scanSensors sensorProp aliases sensors1 = scanSensors sensorProp aliases sensors2.
Proof.
  induction 1 as [| s1 s2 rest1 rest2 [Hid Hprops] _ IH]; [reflexivity |].
  cbn [scanSensors]. destruct (Hprops sensorProp) as [Ht Hcase].
  rewrite <- Ht. destruct (truthy (get s1 sensorProp)) eqn:Ht1; cbn [negb];
    [| exact IH].
  destruct (truthy_toString _ Ht1) as (v1 & Hv1).
  symmetry in Ht. destruct (truthy_toString _ Ht) as (v2 & Hv2).
  rewrite Hv1, Hv2. cbn. rewrite (Hcase v1 v2 Hv1 Hv2), Hid, IH. reflexivity.
Qed.

Lemma scanProps_sameUpToCase props (sensors1 sensors2 : list Obj) :
  Forall2 sameUpToCase sensors1 sensors2 ->
  scanProps props sensors1 = scanProps props sensors2.
Proof.
  intros Hsame. induction props as [| [sensorProp aliases] rest IH];
    cbn [scanProps]; [reflexivity |].
  rewrite (scanSensors_sameUpToCase _ _ _ _ Hsame). now rewrite IH.
Qed.

(** X13. The letter case of the sensors' attribute values does not
    matter: sensor lists that differ in it only give the same result. *)
Theorem findSensorIds_sameUpToCase (sensors1 sensors2 : list Obj)
    (matchings : Matchings) :
  Forall2 sameUpToCase sensors1 sensors2 ->
  findSensorIds sensors1 matchings = findSensorIds sensors2 matchings.
Proof.
  intros Hsame. unfold findSensorIds.
  generalize (∅ : gmap string string) as sensorMap.
  induction matchings as [| [phenomenon props] rest IH]; intros sensorMap;
    cbn [findSensorIds_from]; [reflexivity |].
  rewrite (scanProps_sameUpToCase _ _ _ Hsame).
  destruct (scanProps props sensors2) as [[id |] |]; cbn;
    [apply IH | apply IH | reflexivity].
Qed.

End SensorMatcherCase.

Lemma set_string_sameUpToCase (sensor : Obj) (sensorProp s s' : string) :
  sensorProp <> "_id"%string ->
  get sensor sensorProp = VStr s ->
  s <> ""%string -> s' <> ""%string ->
  asciiLowerCase s = asciiLowerCase s' ->
  sameUpToCase sensor (set sensor sensorProp (VStr s')).
Proof.
  intros Hne Hget Hs Hs' Hlower. split.
  - now rewrite get_set_ne.
  - intros q. destruct (decide (sensorProp = q)) as [<- | Hq].
    + rewrite get_set_eq, Hget. cbn.
      rewrite !bool_decide_eq_false_2 by assumption. split; [reflexivity |].
      intros s1 s2 [= <-] [= <-]. exact Hlower.
    + rewrite get_set_ne by exact Hq. split; [reflexivity |].
      intros s1 s2 H1 H2. rewrite H1 in H2. now injection H2 as <-.
Qed.

Lemma findSensorIds_sameUpToCase_witness :
  findSensorIds [humiditySensor; pressureSensor] exampleMatchings
  = findSensorIds [set humiditySensor "title" (VStr "HUMIDITY"); pressureSensor]
      exampleMatchings.
Proof.
  apply (findSensorIds_sameUpToCase [humiditySensor; pressureSensor]).
  constructor; [| constructor; [| constructor]].
  - apply (set_string_sameUpToCase humiditySensor "title" "Humidity" "HUMIDITY");
      [discriminate | reflexivity | discriminate | discriminate | reflexivity].
  - split; [reflexivity |]. intros q. split; [reflexivity |].
    intros s1 s2 H1 H2. rewrite H1 in H2. now injection H2 as <-.
Defined.

(** ** More on the ValuePropagator *)

Lemma isCarrier_set sensorId (m : Measurement) (property : string) (value : Val) :
  property <> "sensor_id"%string ->
  isCarrier sensorId (set m property value) = isCarrier sensorId m.
Proof. intros Hne. unfold isCarrier. now rewrite get_set_ne. Qed.

Lemma countCarriers_stampFollowing sensorId property value (ms : list Measurement) :
  property <> "sensor_id"%string ->
  countCarriers sensorId (stampFollowing sensorId property value ms)
  = countCarriers sensorId ms.
Proof.
  intros Hne. unfold countCarriers.
  induction ms as [| m rest IH]; cbn [stampFollowing]; [reflexivity |].
  destruct (isCarrier sensorId m) eqn:Hm; [reflexivity |].
  cbn [List.filter]. rewrite isCarrier_set by exact Hne. now rewrite Hm.
Qed.

Lemma countCarriers_applyValueFromMeasurement args (ms : list Measurement) :
  Args.property args <> "sensor_id"%string ->
  countCarriers (Args.sensorId args) (applyValueFromMeasurement args ms)
  = Nat.pred (countCarriers (Args.sensorId args) ms).
Proof.
  intros Hne. induction ms as [| m rest IH];
    cbn [applyValueFromMeasurement]; [reflexivity |].
  destruct (isCarrier (Args.sensorId args) m) eqn:Hm.
  - rewrite countCarriers_stampFollowing by exact Hne.
    unfold countCarriers. cbn [List.filter]. now rewrite Hm.
  - unfold countCarriers in *. cbn [List.filter]. now rewrite Hm.
Qed.

Lemma countCarriers_zero sensorId (ms : list Measurement) :
  countCarriers sensorId ms = 0%nat -> Forall (notCarrier sensorId) ms.
Proof.
  unfold countCarriers. induction ms as [| m rest IH]; [constructor |].
  cbn [List.filter]. destruct (isCarrier sensorId m) eqn:Hm; [discriminate |].
  intros Hrest. constructor; [exact Hm | now apply IH].
Qed.

(** X14. When the stamped property is not [sensor_id], one call of the
    hook lowers the number of carrier entries by exactly one (down to
    zero), so that after as many calls as the array has carrier entries
    none is left. *)
Theorem applyValueFromMeasurement_consumes_one
    (args : Args.t) (ms : list Measurement) :
  Args.property args <> "sensor_id"%string ->
  countCarriers (Args.sensorId args) (applyValueFromMeasurement args ms)
  = Nat.pred (countCarriers (Args.sensorId args) ms)
  /\ forall n : nat,
       (countCarriers (Args.sensorId args) ms <= n)%nat ->
       Forall (notCarrier (Args.sensorId args))
              (Nat.iter n (applyValueFromMeasurement args) ms).
Proof.
  intros Hne. split; [now apply countCarriers_applyValueFromMeasurement |].
  intros n Hn. apply countCarriers_zero.
  assert (Hiter : forall k,
    countCarriers (Args.sensorId args)
      (Nat.iter k (applyValueFromMeasurement args) ms)
    = (countCarriers (Args.sensorId args) ms - k)%nat).
  { induction k as [| k IH]; [now rewrite Nat.sub_0_r |].
    rewrite Nat.iter_succ.
    rewrite countCarriers_applyValueFromMeasurement by exact Hne.
    rewrite IH. lia. }
  rewrite Hiter. lia.
Qed.

Lemma applyValueFromMeasurement_consumes_one_witness :
  countCarriers (VStr "t") (applyValueFromMeasurement createdAtFromT exampleMeasurements)
  = Nat.pred (countCarriers (VStr "t") exampleMeasurements)
  /\ forall n : nat,
       (countCarriers (VStr "t") exampleMeasurements <= n)%nat ->
       Forall (notCarrier (VStr "t"))
              (Nat.iter n (applyValueFromMeasurement createdAtFromT) exampleMeasurements).
Proof.
  apply (applyValueFromMeasurement_consumes_one createdAtFromT exampleMeasurements).
  discriminate.
Defined.

Lemma stampFollowing_other_keys sensorId property value (key : string)
    (ms : list Measurement) :
  key <> property ->
  (fun m => get m key) <$> stampFollowing sensorId property value ms
  = (fun m => get m key) <$> ms.
Proof.
  intros Hne. induction ms as [| m rest IH]; cbn [stampFollowing]; [reflexivity |].
  destruct (isCarrier sensorId m); [reflexivity |].
  cbn [fmap list_fmap]. rewrite get_set_ne by congruence. f_equal. exact IH.
Qed.

(** X15. The hook changes no property but the one it stamps: for every
    other property (the sensor id and the value, say), the values the
    resulting measurements have for it are those of the array without its
    first carrier entry, in the same order. *)
Theorem applyValueFromMeasurement_other_keys
    (args : Args.t) (key : string) (ms : list Measurement) :
  key <> Args.property args ->
  (fun m => get m key) <$> applyValueFromMeasurement args ms
  = (fun m => get m key) <$> withoutFirstCarrier (Args.sensorId args) ms.
Proof.
  intros Hne. induction ms as [| m rest IH];
    cbn [applyValueFromMeasurement withoutFirstCarrier]; [reflexivity |].
  destruct (isCarrier (Args.sensorId args) m).
  - now apply stampFollowing_other_keys.
  - cbn [fmap list_fmap]. f_equal. exact IH.
Qed.

Lemma applyValueFromMeasurement_other_keys_witness :
  (fun m => get m "value") <$> applyValueFromMeasurement createdAtFromT exampleMeasurements
  = (fun m => get m "value") <$> withoutFirstCarrier (VStr "t") exampleMeasurements.
Proof.
  apply (applyValueFromMeasurement_other_keys createdAtFromT "value" exampleMeasurements).
  discriminate.
Defined.



(** X17. The timestamp step is idempotent. *)
Theorem stampCreatedAt_idempotent (timestamp : Val) (ms : list Measurement) :
  stampCreatedAt timestamp (stampCreatedAt timestamp ms)
  = stampCreatedAt timestamp ms.
Proof.
  destruct ms as [| first rest]; [reflexivity |].
  destruct (truthy timestamp) eqn:Hts;
    [destruct (truthy (get first "createdAt")) eqn:Hc |].
  - assert (Hskip : stampCreatedAt timestamp (first :: rest) = first :: rest)
      by (apply stampCreatedAt_skips; right; eauto).
    rewrite Hskip. exact Hskip.
  - rewrite (stampCreatedAt_stamps timestamp (first :: rest) Hts)
      by (intros m [= <-]; exact Hc).
    apply stampCreatedAt_skips. right. cbn [map].
    eexists. split; [reflexivity |]. now rewrite get_set_eq.
  - assert (Hskip : stampCreatedAt timestamp (first :: rest) = first :: rest)
      by (apply stampCreatedAt_skips; now left).
    rewrite Hskip. exact Hskip.
Qed.

(** ** More on the DecodeEngine *)

Lemma slice_in_range (buffer : list Z) (start n : Z) :
  0 <= start -> 0 <= n -> start + n <= Z.of_nat (length buffer) ->
  slice buffer start (start + n)
  = take (Z.to_nat n) (drop (Z.to_nat start) buffer).
Proof.
  intros Hs Hn Hlen. unfold slice, adjustOffset.
  destruct (Z.ltb_spec start 0); [lia |].
  destruct (Z.ltb_spec (start + n) 0); [lia |].
  rewrite !Z.min_l by lia. f_equal. lia.
Qed.

Lemma declaredLength_cons (mask : Mask.t) (rest : list Mask.t) :
  declaredLength (mask :: rest) = Mask.bytes mask + declaredLength rest.
Proof. reflexivity. Qed.

Lemma declaredLength_nonneg (bt : list Mask.t) :
  Forall (fun mask => 0 <= Mask.bytes mask) bt -> 0 <= declaredLength bt.
Proof.
  induction 1 as [| mask rest Hm _ IH]; [reflexivity |].
  rewrite declaredLength_cons. lia.
Qed.

Lemma decodeMasks_chunks (buffer : list Z) (bt : list Mask.t) :
  forall (currByte : Z) (result : list Measurement),
  Forall (fun mask => 0 <= Mask.bytes mask) bt ->
  0 <= currByte ->
  currByte + declaredLength bt <= Z.of_nat (length buffer) ->
  decodeMasks buffer currByte result bt
  = MkRun (CallTransformer <$> chunks (drop (Z.to_nat currByte) buffer) (byteCounts bt))
          (Ok (result ++ zip_with measurementOf bt
                           (chunks (drop (Z.to_nat currByte) buffer) (byteCounts bt)))).
Proof.
  induction bt as [| mask rest IH]; intros currByte result Hpos Hc Hlen.
  - cbn. now rewrite app_nil_r.
  - apply Forall_cons in Hpos. destruct Hpos as [Hm Hrest].
    rewrite declaredLength_cons in Hlen.
    pose proof (declaredLength_nonneg rest Hrest) as Hnn.
    cbn [decodeMasks]. rewrite slice_in_range by lia.
    unfold mbind, Run_bind, callTransformer. cbn [completion calls app].
    rewrite (IH (currByte + Mask.bytes mask)) by (assumption || lia).
    cbn [byteCounts fmap list_fmap chunks zip_with completion calls].
    rewrite drop_drop.
    replace (Z.to_nat (currByte + Mask.bytes mask))
      with (Z.to_nat currByte + Z.to_nat (Mask.bytes mask))%nat by lia.
    fold (byteCounts rest). rewrite <- app_assoc. reflexivity.
Qed.

Lemma concat_chunks (lengths : list nat) : forall buffer : list Z,
  foldr Nat.add 0%nat lengths = length buffer ->
  concat (chunks buffer lengths) = buffer.
Proof.
  induction lengths as [| n rest IH]; intros buffer Hsum; cbn in *.
  - destruct buffer; [reflexivity | discriminate].
  - rewrite IH by (rewrite length_drop; lia). apply take_drop.
Qed.

Lemma chunks_lengths (lengths : list nat) : forall buffer : list Z,
  (foldr Nat.add 0 lengths <= length buffer)%nat ->
  length <$> chunks buffer lengths = lengths.
Proof.
  induction lengths as [| n rest IH]; intros buffer Hsum; cbn in *;
    [reflexivity |].
  rewrite length_take, IH by (rewrite length_drop; lia). f_equal. lia.
Qed.

Lemma byteCounts_sum (bt : list Mask.t) :
  Forall (fun mask => 0 <= Mask.bytes mask) bt ->
  Z.of_nat (foldr Nat.add 0%nat (byteCounts bt)) = declaredLength bt.
Proof.
  induction 1 as [| mask rest Hm _ IH]; [reflexivity |].
  rewrite declaredLength_cons. cbn [byteCounts fmap list_fmap foldr].
  fold (byteCounts rest). lia.
Qed.

(** X18. For a buffer of the declared length and segments of
    non-negative byte counts, the transformers are called, in segment
    order, on consecutive pieces of the buffer that have the segments'
    byte counts and together make up the whole buffer: no byte is read
    twice or left out. *)
Theorem bufferToMeasurements_slices (buffer : list Z) (bt : list Mask.t) :
  Forall (fun mask => 0 <= Mask.bytes mask) bt ->
  declaredLength bt = Z.of_nat (length buffer) ->
  calls (decodedMeasurements buffer bt)
  = CallTransformer <$> chunks buffer (byteCounts bt)
  /\ concat (chunks buffer (byteCounts bt)) = buffer
  /\ length <$> chunks buffer (byteCounts bt) = byteCounts bt.
Proof.
  intros Hpos Hlen.
  pose proof (byteCounts_sum bt Hpos) as Hsum.
  split; [| split].
  - unfold decodedMeasurements.
    rewrite decodeMasks_chunks by (assumption || lia). reflexivity.
  - apply concat_chunks. lia.
  - apply chunks_lengths. lia.
Qed.

Lemma bufferToMeasurements_slices_witness :
  calls (decodedMeasurements [1; 0; 2; 0] exampleTransformer)
  = CallTransformer <$> chunks [1; 0; 2; 0] (byteCounts exampleTransformer)
  /\ concat (chunks [1; 0; 2; 0] (byteCounts exampleTransformer)) = [1; 0; 2; 0]
  /\ length <$> chunks [1; 0; 2; 0] (byteCounts exampleTransformer)
     = byteCounts exampleTransformer.
Proof.
  apply (bufferToMeasurements_slices [1; 0; 2; 0] exampleTransformer).
  - repeat constructor; cbn; lia.
  - reflexivity.
Defined.

(** X19. Under the same conditions the measurements the decoding loop
    leaves are, segment by segment, the segment's sensor id with the
    value its transformer returns on its piece of the buffer. *)
Theorem decodedMeasurements_content (buffer : list Z) (bt : list Mask.t) :
  Forall (fun mask => 0 <= Mask.bytes mask) bt ->
  declaredLength bt = Z.of_nat (length buffer) ->
  completion (decodedMeasurements buffer bt)
  = Ok (zip_with measurementOf bt (chunks buffer (byteCounts bt))).
Proof.
  intros Hpos Hlen. unfold decodedMeasurements.
  rewrite decodeMasks_chunks by (assumption || lia). reflexivity.
Qed.

Lemma decodedMeasurements_content_witness :
  completion (decodedMeasurements [1; 0; 2; 0] exampleTransformer)
  = Ok (zip_with measurementOf exampleTransformer
          (chunks [1; 0; 2; 0] (byteCounts exampleTransformer))).
Proof.
  apply (decodedMeasurements_content [1; 0; 2; 0] exampleTransformer).
  - repeat constructor; cbn; lia.
  - reflexivity.
Defined.

Lemma applyOnResult_fold (bt : list Mask.t) : forall result : list Measurement,
  applyOnResult result bt
  = MkRun (CallOnResult <$> hookInputs (hooksOf bt) result)
          (Ok (foldl (fun r hook => hook r) result (hooksOf bt))).
Proof.
  induction bt as [| mask rest IH]; intros result; [reflexivity |].
  cbn [applyOnResult]. unfold hooksOf. cbn [omap list_omap].
  destruct (Mask.onResult mask) as [hook |]; cbn [hookInputs foldl].
  - unfold mbind, Run_bind, callOnResult. cbn [completion calls].
    rewrite IH. reflexivity.
  - apply IH.
Qed.

(** X20. For a buffer of the declared length, every transformer is
    called before any hook; the hooks run in segment order, the first on
    all the decoded measurements and each next one on the array the hook
    before left; what the last one leaves is returned. *)
Theorem bufferToMeasurements_hooks_in_order (buffer : list Z) (bt : list Mask.t) :
  declaredLength bt = Z.of_nat (length buffer) ->
  exists decoded,
    completion (decodedMeasurements buffer bt) = Ok decoded
    /\ calls (bufferToMeasurements buffer bt)
       = calls (decodedMeasurements buffer bt)
         ++ (CallOnResult <$> hookInputs (hooksOf bt) decoded)
    /\ completion (bufferToMeasurements buffer bt)
       = Ok (foldl (fun result hook => hook result) decoded (hooksOf bt))
    /\ Forall (fun call => exists maskedBytes, call = CallTransformer maskedBytes)
              (calls (decodedMeasurements buffer bt)).
Proof.
  intros Hlen.
  destruct (decodeMasks_run buffer bt 0 []) as (decoded & Hc & _ & _).
  cbn [app] in Hc. exists decoded.
  assert (Hrun : bufferToMeasurements buffer bt
    = decodedMeasurements buffer bt ≫= (fun result => applyOnResult result bt)).
  { unfold bufferToMeasurements.
    rewrite sumBytes_declaredLength, Z.add_0_l.
    now rewrite bool_decide_eq_false_2 by (intros Hne; now apply Hne). }
  split; [exact Hc |].
  rewrite Hrun. unfold mbind, Run_bind. unfold decodedMeasurements in *.
  rewrite Hc, applyOnResult_fold. cbn [calls completion].
  split; [reflexivity |]. split; [reflexivity |].
  clear. generalize 0 as currByte. generalize (@nil Measurement) as result.
  induction bt as [| mask rest IH]; intros result currByte; cbn [decodeMasks].
  - constructor.
  - unfold mbind, Run_bind, callTransformer. cbn [completion calls app].
    constructor; [eauto | apply IH].
Qed.

Lemma bufferToMeasurements_hooks_in_order_witness :
  exists decoded,
    completion (decodedMeasurements [1; 0; 2; 0] exampleTransformer) = Ok decoded
    /\ calls (bufferToMeasurements [1; 0; 2; 0] exampleTransformer)
       = calls (decodedMeasurements [1; 0; 2; 0] exampleTransformer)
         ++ (CallOnResult <$> hookInputs (hooksOf exampleTransformer) decoded)
    /\ completion (bufferToMeasurements [1; 0; 2; 0] exampleTransformer)
       = Ok (foldl (fun result hook => hook result) decoded
               (hooksOf exampleTransformer))
    /\ Forall (fun call => exists maskedBytes, call = CallTransformer maskedBytes)
              (calls (decodedMeasurements [1; 0; 2; 0] exampleTransformer)).
Proof.
  apply (bufferToMeasurements_hooks_in_order [1; 0; 2; 0] exampleTransformer).
  reflexivity.
Defined.

Lemma profiles_supported (profileDebug profileLoraserial profileSenseboxhome : Profile)
    (name : string) :
  is_Some (profiles profileDebug profileLoraserial profileSenseboxhome name)
  <-> name ∈ ["debug"; "lora-serialization"; "sensebox/home"]%string.
Proof.
  unfold profiles. rewrite !elem_of_cons, elem_of_nil.
  repeat case_bool_decide; split; intros Hcase; eauto;
    try (destruct Hcase as [? Hcase]; discriminate Hcase); tauto.
Qed.



Lemma bufferToMeasurements_completes (buffer : list Z) (bt : list Mask.t)
    (ms : list Measurement) :
  completion (bufferToMeasurements buffer bt) = Ok ms ->
  declaredLength bt = Z.of_nat (length buffer).
Proof.
  unfold bufferToMeasurements. rewrite sumBytes_declaredLength, Z.add_0_l.
  case_bool_decide as Hne; [discriminate |].
  intros _. destruct (Z.eq_dec (declaredLength bt) (Z.of_nat (length buffer)));
    [assumption | contradiction].
Qed.

(** X22. decodeBuffer is fulfilled only when every step went through:
    the box has a TTN configuration that names one of the three profiles,
    the profile built a bufferTransformer whose declared length is the
    length of the buffer, and the measurements returned are what the
    validator made of the decoded measurements after the timestamp
    step. *)
Theorem decodeBuffer_fulfilled
    (profileDebug profileLoraserial profileSenseboxhome : Profile)
    (transformAndValidateArray : list Measurement -> Result (list Measurement))
    (buffer : list Z) (box : Box.t) (timestamp : Val)
    (validated : list Measurement) :
  decodeBuffer profileDebug profileLoraserial profileSenseboxhome
    transformAndValidateArray buffer box timestamp = Ok validated ->
  exists ttn profile bt ms,
    Box.integrations box ≫= Box.ttn = Some ttn
    /\ Box.profile ttn ∈ ["debug"; "lora-serialization"; "sensebox/home"]%string
    /\ profiles profileDebug profileLoraserial profileSenseboxhome
         (Box.profile ttn) = Some profile
    /\ createBufferTransformer profile box = Ok bt
    /\ declaredLength bt = Z.of_nat (length buffer)
    /\ completion (bufferToMeasurements buffer bt) = Ok ms
    /\ transformAndValidateArray (stampCreatedAt timestamp ms) = Ok validated.
Proof.
  unfold decodeBuffer. intros Hok.
  destruct (Box.integrations box ≫= Box.ttn) as [ttn |]; [| discriminate].
  destruct (profiles profileDebug profileLoraserial profileSenseboxhome
              (Box.profile ttn)) as [profile |] eqn:Hprofile; [| discriminate].
  destruct (createBufferTransformer profile box) as [bt |] eqn:Hbt;
    [| discriminate].
  cbn in Hok.
  destruct (completion (bufferToMeasurements buffer bt)) as [ms |] eqn:Hms;
    [| discriminate].
  cbn in Hok. exists ttn, profile, bt, ms.
  split; [reflexivity |].
  split; [apply (profiles_supported profileDebug profileLoraserial
                   profileSenseboxhome); now rewrite Hprofile |].
  split; [exact Hprofile |]. split; [exact Hbt |].
  split; [now apply (bufferToMeasurements_completes buffer bt ms) |].
  split; [exact Hms | exact Hok].
Qed.

Lemma decodeBuffer_fulfilled_witness :
  exists ttn profile bt ms,
    Box.integrations exampleBox ≫= Box.ttn = Some ttn
    /\ Box.profile ttn ∈ ["debug"; "lora-serialization"; "sensebox/home"]%string
    /\ profiles exampleProfile exampleProfile exampleProfile
         (Box.profile ttn) = Some profile
    /\ createBufferTransformer profile exampleBox = Ok bt
    /\ declaredLength bt = Z.of_nat (length [7; 1])
    /\ completion (bufferToMeasurements [7; 1] bt) = Ok ms
    /\ Ok (stampCreatedAt VUndefined ms) = Ok [measurement "x" 263].
Proof.
  apply (decodeBuffer_fulfilled exampleProfile exampleProfile exampleProfile Ok
           [7; 1] exampleBox VUndefined [measurement "x" 263]).
  vm_compute. reflexivity.
Defined.

(** ** The TTN client *)

(** Names the outcome of the next call of the goal and reduces. *)
Ltac io_step :=
  match goal with
  | |- context [getAppOutcome ?w] =>
      is_var w; destruct (getAppOutcome w) as [[? | ?] ?] eqn:?
  | |- context [deviceOutcome ?a ?b ?w] =>
      is_var w; destruct (deviceOutcome a b w) as [[? | ?] ?] eqn:?
  | |- context [registerDeviceOutcome ?a ?b ?o ?w] =>
      is_var w; destruct (registerDeviceOutcome a b o w) as [[? | ?] ?] eqn:?
  | |- context [keyOutcome ?n ?w] =>
      is_var w; destruct (keyOutcome n w) as [? ?] eqn:?
  | |- context [boxFromDevIdOutcome ?a ?d ?p ?w] =>
      is_var w; destruct (boxFromDevIdOutcome a d p w) as [[? | ?] ?] eqn:?
  | |- context [decodeRequestOutcome ?m ?b ?w] =>
      is_var w; destruct (decodeRequestOutcome m b w) as [[? | ?] ?] eqn:?
  | |- context [saveMeasurementsArrayOutcome ?b ?m ?w] =>
      is_var w; destruct (saveMeasurementsArrayOutcome b m w) as [[? | ?] ?] eqn:?
  end; cbn [fst snd List.app].

Ltac io_unfold :=
  unfold getOrRegisterDevice, registerOnNotFound, onUplinkMessage, logRejection,
    ioBind, getApp, appDevice, appRegisterDevice, key, log, call, ioRet.

(** Splits membership in a list of calls that is written out; the cases
    of another constructor go away. *)
Ltac in_calls H :=
  repeat (apply elem_of_cons in H; destruct H as [H | H];
          [try discriminate H |]);
  try (now apply elem_of_nil in H).

Section TtnFacts.
Context `{Outside}.

(** X23. Whatever the TTN backend answers, getOrRegisterDevice registers
    at most one device, and only after the lookup of the box's device was
    rejected with exactly "handler:device:<appId>:<boxId> not found"; the
    device is registered under the box id with the frame counter check
    disabled, the application's EUI, a device address that starts with
    2601, and as devEui the [dev_eui] given or, when none is given, 00
    followed by a generated key. *)
Theorem getOrRegisterDevice_registration (boxId : string) (dev_eui : Val)
    (w : World) :
  (length (List.filter isRegisterCall
             (getOrRegisterDevice boxId dev_eui w).2) <= 1)%nat
  /\ forall boxId' opts,
       CallRegisterDevice boxId' opts ∈ (getOrRegisterDevice boxId dev_eui w).2 ->
       boxId' = boxId
       /\ disableFCntCheck opts = true
       /\ (exists addr, devAddr opts = "2601" +:+ addr)
       /\ (truthy dev_eui = true -> devEui opts = dev_eui)
       /\ (truthy dev_eui = false -> exists k, devEui opts = VStr ("00" +:+ k))
       /\ exists app w1 err w2,
            getAppOutcome w = (Ok app, w1)
            /\ deviceOutcome app boxId w1 = (Throw err, w2)
            /\ message err = notFoundMessage boxId
            /\ appEui opts = appClientEui app.
Proof.
  io_unfold. io_step.
  - io_step.
    + split; [cbn; lia |]. intros boxId' opts Hin. in_calls Hin.
    + case_bool_decide as Hmsg.
      * split; [cbn; lia |]. intros boxId' opts Hin. in_calls Hin.
      * assert (Hnf : message e = notFoundMessage boxId)
          by (destruct (decide (message e = notFoundMessage boxId));
              [assumption | contradiction]).
        destruct (truthy dev_eui) eqn:Hts; repeat io_step;
          (split; [cbn; lia |]); intros boxId' opts Hin; in_calls Hin;
          injection Hin as -> ->; cbn;
          repeat split; eauto 10; try discriminate.
  - case_bool_decide as Hmsg.
    + split; [cbn; lia |]. intros boxId' opts Hin. in_calls Hin.
    + destruct (truthy dev_eui); repeat io_step;
        (split; [cbn; lia |]); intros boxId' opts Hin; in_calls Hin.
Qed.


(** X25. When the device is found at once, it is returned and nothing
    else is called. When it is not found, keys are generated, the device
    is registered and looked up again: the outcome of that second lookup
    is the outcome of getOrRegisterDevice; a registration that fails is
    passed on as it is, not wrapped, and no second lookup is made. *)
Theorem getOrRegisterDevice_outcome (boxId : string) (dev_eui : Val)
    (w w1 w2 : World) (app : App) :
  getAppOutcome w = (Ok app, w1) ->
  (forall device,
     deviceOutcome app boxId w1 = (Ok device, w2) ->
     getOrRegisterDevice boxId dev_eui w
     = (Ok device, w2, [CallGetApp; CallDevice boxId]))
  /\ (forall err,
        deviceOutcome app boxId w1 = (Throw err, w2) ->
        message err = notFoundMessage boxId ->
        exists opts w3,
          (getOrRegisterDevice boxId dev_eui w).2
          = [CallGetApp; CallDevice boxId;
             CallLog Info ("box " +:+ boxId
                           +:+ " has no TTN device, registering a new one")]
            ++ (if truthy dev_eui then [] else [CallKey 7])
            ++ [CallKey 16; CallKey 16; CallKey 16; CallKey 2;
                CallRegisterDevice boxId opts]
            ++ match registerDeviceOutcome app boxId opts w3 with
               | (Ok _, _) => [CallDevice boxId]
               | (Throw _, _) => []
               end
          /\ (getOrRegisterDevice boxId dev_eui w).1
             = match registerDeviceOutcome app boxId opts w3 with
               | (Ok _, w4) => deviceOutcome app boxId w4
               | (Throw e, w4) => (Throw e, w4)
               end).
Proof.
  intros Happ. split.
  - intros device Hdev. io_unfold. now rewrite Happ, Hdev.
  - intros err Hdev Hmsg. io_unfold. rewrite Happ, Hdev. cbn [fst snd List.app].
    rewrite bool_decide_eq_false_2 by (intros Hne; now apply Hne).
    destruct (truthy dev_eui); repeat io_step;
      match goal with
      | E : registerDeviceOutcome app boxId ?opts ?w3 = _ |- _ =>
          exists opts, w3; rewrite E
      end;
      repeat match goal with
             | E : deviceOutcome app boxId ?w = _ |- context [deviceOutcome app boxId ?w] =>
                 rewrite E
             end;
      split; reflexivity.
Qed.

(** X26. Whatever the database and the decoder answer, onUplinkMessage
    saves at most once, and what it saves are the measurements the
    decoder returned for the box the database returned, into that box. *)
Theorem onUplinkMessage_saves_decoded (dev_id : string) (msg : Obj) (w : World) :
  (length (List.filter isSaveCall (onUplinkMessage dev_id msg w).2) <= 1)%nat
  /\ forall box measurements,
       CallSaveMeasurementsArray box measurements ∈ (onUplinkMessage dev_id msg w).2 ->
       exists w1 w2,
         boxFromDevIdOutcome (get msg "app_id") dev_id (get msg "port") w
         = (inl box, w1)
         /\ decodeRequestOutcome msg box w1 = (inl measurements, w2).
Proof.
  io_unfold. io_step; [io_step; [io_step |] |];
    try match goal with r : Rejection |- _ => destruct r end;
    (split; [cbn; lia |]); intros box' ms' Hin; in_calls Hin;
    injection Hin as -> ->; eauto.
Qed.

(** X27. No rejection gets out of onUplinkMessage: the chain always ends
    with one log entry, "saved measurements for <dev_id>" at level info
    exactly when the lookup of the box, the decoding and the saving all
    succeeded, and a warning or an error otherwise. *)
Theorem onUplinkMessage_final_log (dev_id : string) (msg : Obj) (w : World) :
  exists level text,
    last (onUplinkMessage dev_id msg w).2 = Some (CallLog level text)
    /\ level <> Debug
    /\ (level = Info -> text = "saved measurements for " +:+ dev_id)
    /\ (level = Info
        <-> exists box w1 measurements w2 w3,
              boxFromDevIdOutcome (get msg "app_id") dev_id (get msg "port") w
              = (inl box, w1)
              /\ decodeRequestOutcome msg box w1 = (inl measurements, w2)
              /\ saveMeasurementsArrayOutcome box measurements w2 = (inl tt, w3)).
Proof.
  io_unfold. io_step; [io_step; [io_step |] |];
    try match goal with r : Rejection |- _ => destruct r end;
    try match goal with u : unit |- _ => destruct u end;
    (eexists _, _; split; [reflexivity |]; split; [discriminate |];
     split; [first [reflexivity | discriminate] |]);
    (split;
     [ first [discriminate | intros _; eauto 10]
     | first [ reflexivity
             | intros (box' & w1' & ms' & w2' & w3' & Hb & Hd & Hs);
               exfalso; congruence ] ]).
Qed.

End TtnFacts.

Lemma getOrRegisterDevice_registration_witness :
  CallRegisterDevice "box1"
    {| devEui := VStr "0000"; appEui := VStr "70B3D57ED0000001";
       disableFCntCheck := true; appKey := "00"; nwkSKey := "00";
       appSKey := "00"; devAddr := "260100" |}
  ∈ (getOrRegisterDevice (H := exampleOutside) "box1" VUndefined ∅).2
  /\ exists app w1 err w2,
       getAppOutcome (Outside := exampleOutside) ∅ = (Ok app, w1)
       /\ deviceOutcome (Outside := exampleOutside) app "box1" w1 = (Throw err, w2)
       /\ message err = notFoundMessage (H := exampleOutside) "box1".
Proof.
  assert (Hin : CallRegisterDevice "box1"
    {| devEui := VStr "0000"; appEui := VStr "70B3D57ED0000001";
       disableFCntCheck := true; appKey := "00"; nwkSKey := "00";
       appSKey := "00"; devAddr := "260100" |}
    ∈ (getOrRegisterDevice (H := exampleOutside) "box1" VUndefined ∅).2)
    by (vm_compute; repeat constructor).
  split; [exact Hin |].
  destruct (getOrRegisterDevice_registration (H := exampleOutside)
              "box1" VUndefined ∅) as [_ Hreg].
  destruct (Hreg _ _ Hin) as (_ & _ & _ & _ & _ & app & w1 & err & w2 & H1 & H2 & H3 & _).
  exists app, w1, err, w2. auto.
Defined.


Lemma getOrRegisterDevice_outcome_witness :
  exists opts w3,
    (getOrRegisterDevice (H := exampleOutside) "box1" (VStr "0011223344556677") ∅).2
    = [CallGetApp; CallDevice "box1";
       CallLog Info "box box1 has no TTN device, registering a new one";
       CallKey 16; CallKey 16; CallKey 16; CallKey 2;
       CallRegisterDevice "box1" opts]
      ++ match registerDeviceOutcome (Outside := exampleOutside) tt "box1" opts w3 with
         | (Ok _, _) => [CallDevice "box1"]
         | (Throw _, _) => []
         end
    /\ (getOrRegisterDevice (H := exampleOutside) "box1" (VStr "0011223344556677") ∅).1
       = match registerDeviceOutcome (Outside := exampleOutside) tt "box1" opts w3 with
         | (Ok _, w4) => deviceOutcome (Outside := exampleOutside) tt "box1" w4
         | (Throw e, w4) => (Throw e, w4)
         end.
Proof.
  destruct (getOrRegisterDevice_outcome (H := exampleOutside)
              "box1" (VStr "0011223344556677") ∅ ∅ ∅ tt eq_refl)
    as [_ Hnew].
  exact (Hnew (Error "handler:device:osem:box1 not found") eq_refl eq_refl).
Defined.
